(** * Proof-of-work difficulty rules of pow.cpp

    A shallow embedding of [GetNextWorkRequired],
    [GetNextWorkRequiredPerBlock], [CalculateNextWorkRequired] and
    [CheckProofOfWork], together with the parts of [arith_uint256],
    [Consensus::Params] and [CBlockIndex] they rely on, and the properties
    of the difficulty rules proved about them. *)

From Stdlib Require Import ZArith Lia Bool List.
Import ListNotations.
Local Open Scope Z_scope.

(** ** Machine integers

    Every integer is a [Z]; a value of a fixed-width C++ type is kept in the
    range of the type by the conversion written at each operation.  Signed
    arithmetic is two's complement. *)

Definition wrap_uint32 (z : Z) : Z := z mod 2 ^ 32.
Definition wrap_uint64 (z : Z) : Z := z mod 2 ^ 64.
Definition wrap_int (z : Z) : Z := (z + 2 ^ 31) mod 2 ^ 32 - 2 ^ 31.
Definition wrap_int64 (z : Z) : Z := (z + 2 ^ 63) mod 2 ^ 64 - 2 ^ 63.

Definition in_int (z : Z) : Prop := - 2 ^ 31 <= z < 2 ^ 31.
Definition in_int64 (z : Z) : Prop := - 2 ^ 63 <= z < 2 ^ 63.

(** ** Outcomes

    A call either returns, or stops at a failed [assert], or leaves through
    the exception that the 256-bit division throws on a zero divisor, or
    divides a built-in integer by zero. *)

Inductive fault : Set :=
| AssertLastNull      (* assert(pindexLast != nullptr) *)
| AssertFirstNull     (* assert(pindexFirst) *)
| UintDivisionByZero  (* uint_error thrown by operator/= *)
| IntDivisionByZero.  (* / or % of an int64_t by zero *)

Inductive outcome (A : Type) : Type :=
| Returns (a : A)
| Fails (f : fault).

Arguments Returns {A} a.
Arguments Fails {A} f.

Definition bind {A B : Type} (m : outcome A) (k : A -> outcome B) : outcome B :=
  match m with
  | Returns a => k a
  | Fails f => Fails f
  end.

Notation "x <- m ;; k" := (bind m (fun x => k))
  (at level 61, m at next level, right associativity).

(** ** 256-bit unsigned integers *)

Module arith_uint256.

(** Modelled from the spec: the class [arith_uint256] (arith_uint256.h and
    arith_uint256.cpp lie outside pow.cpp).  A value is "a 256-bit unsigned
    integer" (spec 3), here a [Z] in [0, 2^256); every operation reduces its
    result modulo [2^256]. *)
Definition wrap (z : Z) : Z := z mod 2 ^ 256.

(** Modelled from the spec: [bits()], the "bit-length" of spec 4.2: the
    position of the highest set bit plus one, and 0 for the value 0. *)
Definition bits (x : Z) : Z := if x =? 0 then 0 else Z.log2 x + 1.

(** Modelled from the spec: [operator>>=] and [operator<<=], the
    "right-shift" and "left-shift" of spec 4.2. *)
Definition shr (x n : Z) : Z := Z.shiftr x n.
Definition shl (x n : Z) : Z := wrap (Z.shiftl x n).

(** Modelled from the spec: [operator*=] applied to an [int64_t], the
    "multiply by actual_timespan" of spec 4.2.  The class multiplies by a
    32-bit unsigned word or by another 256-bit value; a built-in integer
    argument takes the former, so the operand enters as a [uint32_t].  The
    bounds proved below take the operand in [0, 2^32), where the width at
    which it enters makes no difference. *)
Definition mul (x b : Z) : Z := wrap (x * wrap_uint32 b).

(** Modelled from the spec: [operator/=] applied to an [int64_t], the
    "divide by pow_target_timespan" of spec 4.2.  The divisor becomes a
    256-bit value through its 64-bit unsigned image; a zero divisor
    throws. *)
Definition div (x d : Z) : outcome Z :=
  if wrap_uint64 d =? 0 then Fails UintDivisionByZero
  else Returns (x / wrap_uint64 d).

Definition GetLow64 (x : Z) : Z := x mod 2 ^ 64.

(** Modelled from the spec: [SetCompact], the [decode] of spec 4.1:
    "extracts exponent and mantissa; if exponent <= 3, right-shifts
    mantissa into place within a byte; otherwise left-shifts.  Sets
    negative if the sign bit of the mantissa is set and mantissa is
    nonzero.  Sets overflow if exponent > 34 or ..." a nonzero mantissa
    does not fit 256 bits at that exponent. *)
Definition SetCompact (nCompact : Z) : Z * bool * bool :=
  let nCompact := wrap_uint32 nCompact in
  let nSize := Z.shiftr nCompact 24 in
  let nWord := Z.land nCompact 0x007fffff in
  let nWord := if nSize <=? 3 then Z.shiftr nWord (8 * (3 - nSize)) else nWord in
  let value := if nSize <=? 3 then nWord else shl nWord (8 * (nSize - 3)) in
  let fNegative := negb (nWord =? 0) && negb (Z.land nCompact 0x00800000 =? 0) in
  let fOverflow :=
    negb (nWord =? 0) &&
    ((nSize >? 34) || ((nWord >? 0xff) && (nSize >? 33))
                   || ((nWord >? 0xffff) && (nSize >? 32))) in
  (value, fNegative, fOverflow).

(** The value alone, as [bnNew.SetCompact(nBits)] uses it. *)
Definition decode (nCompact : Z) : Z := fst (fst (SetCompact nCompact)).

(** Modelled from the spec: [GetCompact], the [encode] of spec 4.1: "finds
    the minimal byte-length exponent and 24-bit mantissa representing the
    value"; a mantissa whose bit 23 would read as the sign is moved down
    one byte and the exponent incremented, so that the round trip of
    spec 8 holds. *)
Definition GetCompact (x : Z) : Z :=
  let nSize := (bits x + 7) / 8 in
  let nCompact :=
    if nSize <=? 3
    then wrap_uint32 (wrap_uint64 (Z.shiftl (GetLow64 x) (8 * (3 - nSize))))
    else wrap_uint32 (GetLow64 (shr x (8 * (nSize - 3)))) in
  let shifted := negb (Z.land nCompact 0x00800000 =? 0) in
  let nCompact' := if shifted then Z.shiftr nCompact 8 else nCompact in
  let nSize' := if shifted then nSize + 1 else nSize in
  Z.lor nCompact' (Z.shiftl nSize' 24).

End arith_uint256.

(** Modelled from the spec: [UintToArith256], which reads a [uint256] (the
    32-byte blob of a hash or of [powLimit]) "as an unsigned 256-bit
    integer" (spec 4.5).  A [uint256] is given here by the integer it
    holds. *)
Definition UintToArith256 (a : Z) : Z := arith_uint256.wrap a.

(** ** Consensus parameters *)

Module Consensus.

(** Modelled from the spec: [Consensus::Params] (consensus/params.h lies
    outside pow.cpp), with the fields of spec 3 under the
    names pow.cpp uses. *)
Record Params : Set := {
  powLimit : Z;                                (* uint256 *)
  nPowTargetSpacing : Z;                       (* int64_t *)
  nPowTargetTimespan : Z;                      (* int64_t *)
  fPowAllowMinDifficultyBlocks : bool;
  fPowNoRetargeting : bool;
  nPerBlockDifficultyActivationHeight : Z;     (* int *)
  nDifficultyChangeActivationHeight : Z        (* int *)
}.

(** Modelled from the spec: [DifficultyAdjustmentInterval()],
    "difficulty_adjustment_interval = pow_target_timespan /
    pow_target_spacing" (spec 3), an [int64_t] division. *)
Definition DifficultyAdjustmentInterval (params : Params) : outcome Z :=
  if nPowTargetSpacing params =? 0 then Fails IntDivisionByZero
  else Returns (wrap_int64 (Z.quot (nPowTargetTimespan params)
                                   (nPowTargetSpacing params))).

End Consensus.
Import Consensus.

(** ** Block headers and the block index *)

Module CBlockHeader.

(** Modelled from the spec: [CBlockHeader] (primitives/block.h lies outside
    pow.cpp); pow.cpp reads only the time of the candidate block
    ("candidate_time", spec 4.2). *)
Record t : Set := { nTime : Z }.

Definition GetBlockTime (pblock : t) : Z := nTime pblock.   (* int64_t *)

End CBlockHeader.

Module CBlockIndex.

Unset Elimination Schemes.

(** Modelled from the spec: [CBlockIndex] (chain.h lies outside pow.cpp),
    the "BlockHeaderRecord" of spec 3: height, time, bits and a predecessor
    reference that "may be absent only for the genesis record".  A record
    owns its predecessor, so every chain is finite. *)
Inductive t : Set :=
| Build (nHeight : Z) (nTime : Z) (nBits : Z) (pprev : option t).
Set Elimination Schemes.

(** Induction along the predecessor references. *)
Fixpoint chain_ind (P : t -> Prop)
    (Hgenesis : forall h x b, P (Build h x b None))
    (Hnext : forall h x b p, P p -> P (Build h x b (Some p)))
    (b : t) {struct b} : P b :=
  match b with
  | Build h x nb None => Hgenesis h x nb
  | Build h x nb (Some p) => Hnext h x nb p (chain_ind P Hgenesis Hnext p)
  end.

Definition nHeight (b : t) : Z := let (h, _, _, _) := b in h.   (* int *)
Definition nTime (b : t) : Z := let (_, x, _, _) := b in x.
Definition nBits (b : t) : Z := let (_, _, x, _) := b in x.     (* uint32_t *)
Definition pprev (b : t) : option t := let (_, _, _, p) := b in p.

Definition GetBlockTime (b : t) : Z := nTime b.                 (* int64_t *)

(** The chain seen from a record: the number of predecessor steps down to
    genesis, the record reached after [n] steps, the genesis record, and
    all records from [b] down to genesis. *)
Fixpoint depth (b : t) : nat :=
  match b with
  | Build _ _ _ None => O
  | Build _ _ _ (Some p) => S (depth p)
  end.

Fixpoint ancestor (n : nat) (b : t) : option t :=
  match n with
  | O => Some b
  | S n' =>
      match b with
      | Build _ _ _ None => None
      | Build _ _ _ (Some p) => ancestor n' p
      end
  end.

Fixpoint genesis (b : t) : t :=
  match b with
  | Build _ _ _ None => b
  | Build _ _ _ (Some p) => genesis p
  end.

Fixpoint records (b : t) : list t :=
  b :: match b with
       | Build _ _ _ None => []
       | Build _ _ _ (Some p) => records p
       end.

(** The invariant of spec 3: "following predecessor references from any
    record terminates at genesis in a finite number of steps equal to its
    height". *)
Definition height_is_depth (b : t) : Prop :=
  Forall (fun r => nHeight r = Z.of_nat (depth r)) (records b).

End CBlockIndex.

Import CBlockIndex(nHeight, nBits, pprev).

(** ** The retarget arithmetic shared by both calculators *)

(** [UintToArith256(params.powLimit).GetCompact()] (lines 16 and 69). *)
Definition nProofOfWorkLimit (params : Params) : Z :=
  arith_uint256.GetCompact (UintToArith256 (powLimit params)).

(** The test of the special testnet rule (lines 35 and 80):
    [pblock->GetBlockTime() > pindexLast->GetBlockTime() + nPowTargetSpacing*2]. *)
Definition MinDifficultyAllowed
    (pindexLast : CBlockIndex.t) (pblock : CBlockHeader.t) (params : Params) : bool :=
  CBlockHeader.GetBlockTime pblock >?
    wrap_int64 (CBlockIndex.GetBlockTime pindexLast
                + wrap_int64 (nPowTargetSpacing params * 2)).

(** Lines 110-111 and 160-161: [bnNew.bits() > bnPowLimit.bits() - 1], where
    [bits()] counts in an [unsigned int]. *)
Definition fShift (bnNew : Z) (params : Params) : bool :=
  (* intermediate uint256 can overflow by 1 bit *)
  let bnPowLimit := UintToArith256 (powLimit params) in
  arith_uint256.bits bnNew >? wrap_uint32 (arith_uint256.bits bnPowLimit - 1).

(** Lines 104-117 and 155-167, which differ in the divisor only: the target
    of [nBits] scaled by [nActualTimespan / nTargetTimespan], before it is
    compared with the limit. *)
Definition Retarget (nBits nActualTimespan nTargetTimespan : Z) (params : Params)
  : outcome Z :=
  let bnNew := arith_uint256.decode nBits in
  let fShift := fShift bnNew params in
  let bnNew := if fShift then arith_uint256.shr bnNew 1 else bnNew in
  let bnNew := arith_uint256.mul bnNew nActualTimespan in
  bnNew <- arith_uint256.div bnNew nTargetTimespan ;;
  Returns (if fShift then arith_uint256.shl bnNew 1 else bnNew).

(** Lines 119-122 and 169-172: the limit and the compact encoding. *)
Definition LimitAndGetCompact (bnNew : Z) (params : Params) : Z :=
  let bnPowLimit := UintToArith256 (powLimit params) in
  let bnNew := if bnNew >? bnPowLimit then bnPowLimit else bnNew in
  arith_uint256.GetCompact bnNew.

(** ** CalculateNextWorkRequired (pow.cpp, lines 125-173) *)

(** Lines 131-152: the elapsed time, limited to the adjustment step of the
    rules in force at [pindexLast]. *)
Definition LimitAdjustmentStep
    (pindexLast : CBlockIndex.t) (nFirstBlockTime : Z) (params : Params) : Z :=
  let nActualTimespan :=
    wrap_int64 (CBlockIndex.GetBlockTime pindexLast - nFirstBlockTime) in
  let fNewRules := nHeight pindexLast >=? nDifficultyChangeActivationHeight params in
  if fNewRules then
    let nActualTimespan :=
      if nActualTimespan <? Z.quot (wrap_int64 (nPowTargetTimespan params * 2)) 3
      then Z.quot (wrap_int64 (nPowTargetTimespan params * 2)) 3
      else nActualTimespan in
    if nActualTimespan >? wrap_int64 (nPowTargetTimespan params * 6)
    then wrap_int64 (nPowTargetTimespan params * 6)
    else nActualTimespan
  else
    let nActualTimespan :=
      if nActualTimespan <? Z.quot (nPowTargetTimespan params) 4
      then Z.quot (nPowTargetTimespan params) 4
      else nActualTimespan in
    if nActualTimespan >? wrap_int64 (nPowTargetTimespan params * 4)
    then wrap_int64 (nPowTargetTimespan params * 4)
    else nActualTimespan.

Definition CalculateNextWorkRequired
    (pindexLast : CBlockIndex.t) (nFirstBlockTime : Z) (params : Params) : outcome Z :=
  if fPowNoRetargeting params then Returns (nBits pindexLast)
  else
    let nActualTimespan := LimitAdjustmentStep pindexLast nFirstBlockTime params in
    bnNew <- Retarget (nBits pindexLast) nActualTimespan
                      (nPowTargetTimespan params) params ;;
    Returns (LimitAndGetCompact bnNew params).

(** ** GetNextWorkRequiredPerBlock (pow.cpp, lines 66-123) *)

(** Lines 85-101: the time between the last block and its predecessor,
    within the per-block limits. *)
Definition PerBlockTimespan
    (pindexLast pindexPrev : CBlockIndex.t) (params : Params) : Z :=
  let nActualTimespan :=
    wrap_int64 (CBlockIndex.GetBlockTime pindexLast
                - CBlockIndex.GetBlockTime pindexPrev) in
  (* Prevent negative time *)
  let nActualTimespan :=
    if nActualTimespan <? 0 then nPowTargetSpacing params else nActualTimespan in
  let nMinTimespan := Z.quot (wrap_int64 (nPowTargetSpacing params * 9)) 10 in
  let nMaxTimespan := Z.quot (wrap_int64 (nPowTargetSpacing params * 12)) 10 in
  let nActualTimespan :=
    if nActualTimespan <? nMinTimespan then nMinTimespan else nActualTimespan in
  if nActualTimespan >? nMaxTimespan then nMaxTimespan else nActualTimespan.

(** Lines 84-122: the adjustment proper, from the times of the last block
    and of its predecessor. *)
Definition PerBlockRetarget
    (pindexLast pindexPrev : CBlockIndex.t) (params : Params) : outcome Z :=
  let nActualTimespan := PerBlockTimespan pindexLast pindexPrev params in
  bnNew <- Retarget (nBits pindexLast) nActualTimespan
                    (nPowTargetSpacing params) params ;;
  Returns (LimitAndGetCompact bnNew params).

Definition GetNextWorkRequiredPerBlock
    (pindexLast : option CBlockIndex.t) (pblock : CBlockHeader.t) (params : Params)
  : outcome Z :=
  match pindexLast with
  | None => Fails AssertLastNull
  | Some pindexLast =>
      (* Genesis block or first block after activation *)
      match pprev pindexLast with
      | None => Returns (nBits pindexLast)
      | Some pindexPrev =>
          if wrap_int (nHeight pindexLast + 1)
             =? nPerBlockDifficultyActivationHeight params
          then Returns (nBits pindexLast)
          (* Special difficulty rule for testnet *)
          else if fPowAllowMinDifficultyBlocks params
                  && MinDifficultyAllowed pindexLast pblock params
          then Returns (nProofOfWorkLimit params)
          else PerBlockRetarget pindexLast pindexPrev params
      end
  end.

(** ** GetNextWorkRequired (pow.cpp, lines 13-64) *)

(** Lines 40-43: the last block that was not mined under the special
    minimum-difficulty rule. *)
Fixpoint LastNonMinDifficultyBlock
    (pindex : CBlockIndex.t) (nInterval nLimit : Z) {struct pindex} : CBlockIndex.t :=
  match pindex with
  | CBlockIndex.Build h _ b (Some p) =>
      if negb (Z.rem h nInterval =? 0) && (b =? nLimit)
      then LastNonMinDifficultyBlock p nInterval nLimit
      else pindex
  | CBlockIndex.Build _ _ _ None => pindex
  end.

(** Lines 57-59: [blockstogoback - i] steps back from [pindexFirst], or
    fewer when the chain ends before. *)
Fixpoint GoBack (pindexFirst : CBlockIndex.t) (i blockstogoback : Z)
    {struct pindexFirst} : option CBlockIndex.t :=
  if i <? blockstogoback then
    match pindexFirst with
    | CBlockIndex.Build _ _ _ (Some p) => GoBack p (i + 1) blockstogoback
    | CBlockIndex.Build _ _ _ None => None
    end
  else Some pindexFirst.

(** Lines 52-54. *)
Definition BlocksToGoBack (pindexLast : CBlockIndex.t) (nInterval : Z) : Z :=
  let blockstogoback := wrap_int (wrap_int64 (nInterval - 1)) in
  if negb (wrap_int (nHeight pindexLast + 1) =? nInterval)
  then wrap_int nInterval
  else blockstogoback.

Definition GetNextWorkRequired
    (pindexLast : option CBlockIndex.t) (pblock : CBlockHeader.t) (params : Params)
  : outcome Z :=
  match pindexLast with
  | None => Fails AssertLastNull
  | Some pindexLast =>
      (* Check if we're at or past the per-block difficulty activation height *)
      let fPerBlockDifficulty :=
        wrap_int (nHeight pindexLast + 1)
          >=? nPerBlockDifficultyActivationHeight params in
      if fPerBlockDifficulty
      then GetNextWorkRequiredPerBlock (Some pindexLast) pblock params
      else
        (* Only change once per difficulty adjustment interval *)
        nInterval <- DifficultyAdjustmentInterval params ;;
        if nInterval =? 0 then Fails IntDivisionByZero
        else if negb (Z.rem (wrap_int (nHeight pindexLast + 1)) nInterval =? 0) then
          if fPowAllowMinDifficultyBlocks params then
            if MinDifficultyAllowed pindexLast pblock params
            then Returns (nProofOfWorkLimit params)
            else
              (* Return the last non-special-min-difficulty-rules-block *)
              Returns (nBits (LastNonMinDifficultyBlock
                                pindexLast nInterval (nProofOfWorkLimit params)))
          else Returns (nBits pindexLast)
        else
          match GoBack pindexLast 0 (BlocksToGoBack pindexLast nInterval) with
          | None => Fails AssertFirstNull
          | Some pindexFirst =>
              CalculateNextWorkRequired
                pindexLast (CBlockIndex.GetBlockTime pindexFirst) params
          end
  end.

(** ** CheckProofOfWork (pow.cpp, lines 175-192) *)

Definition CheckProofOfWork (hash nBits : Z) (params : Params) : bool :=
  let '(bnTarget, fNegative, fOverflow) := arith_uint256.SetCompact nBits in
  (* Check range *)
  if fNegative || (bnTarget =? 0) || fOverflow
     || (bnTarget >? UintToArith256 (powLimit params))
  then false
  (* Check proof of work matches claimed amount *)
  else if UintToArith256 hash >? bnTarget then false
  else true.

(** ** Concrete chains and parameters

    The inputs at which the properties below are exercised: parameters with
    a 150-second spacing, and chains of on-schedule blocks. *)

Module Examples.

(** A limit of 236 bits and a two-week-like timespan of 2016 blocks. *)
Definition main_params (fAllowMin fNoRetargeting : bool) : Params :=
  {| powLimit := 2 ^ 236 - 1;
     nPowTargetSpacing := 150;
     nPowTargetTimespan := 302400;
     fPowAllowMinDifficultyBlocks := fAllowMin;
     fPowNoRetargeting := fNoRetargeting;
     nPerBlockDifficultyActivationHeight := 100;
     nDifficultyChangeActivationHeight := 50 |}.

(** A limit of 255 bits, as regression-test networks use. *)
Definition wide_params : Params :=
  {| powLimit := 2 ^ 255 - 1;
     nPowTargetSpacing := 150;
     nPowTargetTimespan := 302400;
     fPowAllowMinDifficultyBlocks := false;
     fPowNoRetargeting := false;
     nPerBlockDifficultyActivationHeight := 100;
     nDifficultyChangeActivationHeight := 50 |}.

(** An interval of four blocks, with both activations far away. *)
Definition short_params (fAllowMin : bool) : Params :=
  {| powLimit := 2 ^ 236 - 1;
     nPowTargetSpacing := 150;
     nPowTargetTimespan := 600;
     fPowAllowMinDifficultyBlocks := fAllowMin;
     fPowNoRetargeting := false;
     nPerBlockDifficultyActivationHeight := 100000;
     nDifficultyChangeActivationHeight := 50000 |}.

(** The chain of heights [0 .. n], one block every 150 seconds, all with the
    same bits. *)
Fixpoint chain (n : nat) (bits : Z) : CBlockIndex.t :=
  match n with
  | O => CBlockIndex.Build 0 0 bits None
  | S k => CBlockIndex.Build (Z.of_nat n) (150 * Z.of_nat n) bits
                             (Some (chain k bits))
  end.

(** Two consecutive blocks [gap] seconds apart, the later at [height]. *)
Definition pair (height gap bits : Z) : CBlockIndex.t :=
  CBlockIndex.Build height (1000 + gap) bits
    (Some (CBlockIndex.Build (height - 1) 1000 bits None)).

Definition candidate (time : Z) : CBlockHeader.t := {| CBlockHeader.nTime := time |}.

End Examples.

(** * Properties *)

(** C1.  [CheckProofOfWork] accepts exactly when decoding [nBits] reports
    neither a negative value nor an overflow, the decoded target is nonzero
    and at most [powLimit], and the hash, read as an unsigned 256-bit
    integer, is at most the decoded target; it rejects in every other
    case. *)
Theorem CheckProofOfWork_spec (hash nBits : Z) (params : Params) :
  let '(bnTarget, fNegative, fOverflow) := arith_uint256.SetCompact nBits in
  (CheckProofOfWork hash nBits params = true <->
     fNegative = false /\ fOverflow = false /\
     bnTarget <> 0 /\ bnTarget <= UintToArith256 (powLimit params) /\
     UintToArith256 hash <= bnTarget) /\
  (CheckProofOfWork hash nBits params = false <->
     ~ (fNegative = false /\ fOverflow = false /\
        bnTarget <> 0 /\ bnTarget <= UintToArith256 (powLimit params) /\
        UintToArith256 hash <= bnTarget)).
Proof.
  unfold CheckProofOfWork.
  destruct (arith_uint256.SetCompact nBits) as [[bnTarget fNegative] fOverflow].
  destruct fNegative, fOverflow,
    (Z.eqb_spec bnTarget 0),
    (Z.gtb_spec bnTarget (UintToArith256 (powLimit params))),
    (Z.gtb_spec (UintToArith256 hash) bnTarget);
    cbn [orb]; intuition (try discriminate; try lia).
Qed.

(** ** The compact encoding *)

Module CompactFacts.
Import arith_uint256.

(** The codec on known encodings. *)
Example GetCompact_0x80 : GetCompact 0x80 = 0x02008000.
Proof. reflexivity. Qed.

Example GetCompact_0x12345600 : GetCompact 0x12345600 = 0x04123456.
Proof. reflexivity. Qed.

Example SetCompact_0x04923456 :
  SetCompact 0x04923456 = (0x12345600, true, false).
Proof. reflexivity. Qed.

Example SetCompact_0x1d00ffff :
  SetCompact 0x1d00ffff = (0xffff * 2 ^ 208, false, false).
Proof. reflexivity. Qed.

Example SetCompact_0xff123456 :
  snd (SetCompact 0xff123456) = true.
Proof. reflexivity. Qed.

Lemma pow2_pos (k : Z) : 0 <= k -> 0 < 2 ^ k.
Proof. intros; apply Z.pow_pos_nonneg; lia. Qed.

Lemma wrap_range (z : Z) : 0 <= wrap z < 2 ^ 256.
Proof. unfold wrap; apply Z.mod_pos_bound; reflexivity. Qed.

Lemma wrap_small (z : Z) : 0 <= z < 2 ^ 256 -> wrap z = z.
Proof. unfold wrap; intros; now apply Z.mod_small. Qed.

Lemma bits_bounds (x : Z) : 0 < x -> 2 ^ (bits x - 1) <= x < 2 ^ bits x.
Proof.
  intros Hx; unfold bits.
  destruct (Z.eqb_spec x 0); [lia|].
  replace (Z.log2 x + 1 - 1) with (Z.log2 x) by lia.
  pose proof (Z.log2_spec x Hx); unfold Z.succ in *; lia.
Qed.

Lemma bits_range (x : Z) : 0 <= x < 2 ^ 256 -> 0 <= bits x <= 256.
Proof.
  intros Hx; unfold bits.
  destruct (Z.eqb_spec x 0); [lia|].
  pose proof (Z.log2_nonneg x).
  assert (Z.log2 x < 256) by (apply Z.log2_lt_pow2; lia).
  lia.
Qed.

(** The byte length [nSize = (bits() + 7) / 8] bounds the value. *)
Lemma nSize_bounds (x : Z) :
  0 <= x < 2 ^ 256 ->
  let nSize := (bits x + 7) / 8 in
  0 <= nSize <= 32 /\ x < 2 ^ (8 * nSize).
Proof.
  intros Hx nSize; subst nSize.
  pose proof (bits_range x Hx) as Hb.
  assert (Hn : bits x <= 8 * ((bits x + 7) / 8) /\ 0 <= (bits x + 7) / 8 <= 32).
  { pose proof (Z.div_mod (bits x + 7) 8 ltac:(lia)).
    pose proof (Z.mod_pos_bound (bits x + 7) 8 ltac:(lia)). lia. }
  split; [lia|].
  destruct (Z.eq_dec x 0) as [->|Hnz].
  - apply pow2_pos; lia.
  - pose proof (bits_bounds x ltac:(lia)) as [_ Hlt].
    eapply Z.lt_le_trans; [exact Hlt|].
    apply Z.pow_le_mono_r; lia.
Qed.

(** Testing bit 23 of a 24-bit word. *)
Lemma land_sign_bit (c : Z) :
  0 <= c < 2 ^ 24 ->
  (Z.land c 0x00800000 =? 0) = (c <? 2 ^ 23).
Proof.
  intros Hc.
  assert (E : Z.land c (2 ^ 23) = if Z.testbit c 23 then 2 ^ 23 else 0).
  { apply Z.bits_inj'; intros k Hk.
    rewrite Z.land_spec, Z.pow2_bits_eqb by lia.
    destruct (Z.eqb_spec 23 k) as [<-|Hne].
    - destruct (Z.testbit c 23) eqn:T; cbn [andb].
      + now rewrite Z.pow2_bits_eqb, Z.eqb_refl by lia.
      + now rewrite Z.bits_0.
    - rewrite andb_false_r.
      destruct (Z.testbit c 23).
      + rewrite Z.pow2_bits_eqb by lia. symmetry; now apply Z.eqb_neq.
      + now rewrite Z.bits_0. }
  change 0x00800000 with (2 ^ 23); rewrite E.
  pose proof (Z.testbit_spec' c 23 ltac:(lia)) as T.
  destruct (Z.testbit c 23); cbn [Z.b2z] in T;
    destruct (Z.ltb_spec c (2 ^ 23)); try reflexivity; exfalso.
  - rewrite Z.div_small in T by lia. discriminate T.
  - assert (c / 2 ^ 23 = 1) by
      (change (2 ^ 24) with (2 * 2 ^ 23) in Hc;
       pose proof (Z.div_le_lower_bound c (2 ^ 23) 1 ltac:(lia) ltac:(lia));
       pose proof (Z.div_lt_upper_bound c (2 ^ 23) 2 ltac:(lia) ltac:(lia)); lia).
    rewrite H0 in T. discriminate T.
Qed.

(** Decoding a word put together from a 23-bit mantissa and a size. *)
Lemma decode_lor (c n : Z) :
  0 <= c < 2 ^ 23 -> 0 <= n < 256 ->
  decode (Z.lor c (Z.shiftl n 24)) =
    if n <=? 3 then c / 2 ^ (8 * (3 - n)) else wrap (c * 2 ^ (8 * (n - 3))).
Proof.
  intros Hc Hn.
  assert (Hadd : Z.lor c (Z.shiftl n 24) = c + n * 2 ^ 24).
  { rewrite Z.shiftl_mul_pow2 by lia.
    pose proof (Z.add_lor_land c (n * 2 ^ 24)) as Hsum.
    enough (Z.land c (n * 2 ^ 24) = 0) by lia.
    apply Z.bits_inj'; intros k Hk.
    rewrite Z.land_spec, Z.bits_0.
    destruct (Z.ltb_spec k 24).
    - rewrite (Z.mul_pow2_bits_low n 24 k) by lia. apply andb_false_r.
    - rewrite (Z.bits_above_log2 c k); [reflexivity|lia|].
      destruct (Z.eq_dec c 0) as [->|]; [cbn; lia|].
      assert (Z.log2 c < 23) by (apply Z.log2_lt_pow2; lia). lia. }
  assert (Hsz : Z.shiftr (c + n * 2 ^ 24) 24 = n).
  { rewrite Z.shiftr_div_pow2, Z.div_add, Z.div_small by lia. lia. }
  assert (Hword : Z.land (c + n * 2 ^ 24) 0x007fffff = c).
  { change 0x007fffff with (Z.ones 23). rewrite Z.land_ones by lia.
    replace (n * 2 ^ 24) with ((n * 2) * 2 ^ 23) by (change (2 ^ 24) with (2 * 2 ^ 23); lia).
    rewrite Z.mod_add by lia. apply Z.mod_small; lia. }
  unfold decode, SetCompact; cbn [fst].
  rewrite Hadd.
  assert (Hw : wrap_uint32 (c + n * 2 ^ 24) = c + n * 2 ^ 24).
  { unfold wrap_uint32. apply Z.mod_small.
    change (2 ^ 32) with (256 * 2 ^ 24). nia. }
  rewrite Hw, Hsz, Hword.
  destruct (Z.leb_spec n 3).
  - now rewrite Z.shiftr_div_pow2 by lia.
  - unfold shl. now rewrite Z.shiftl_mul_pow2 by lia.
Qed.

(** What [GetCompact] returns decodes to a value that is not above the
    encoded one: the encoding keeps the leading bytes and drops the rest. *)
Lemma decode_GetCompact_le (x : Z) :
  0 <= x < 2 ^ 256 -> 0 <= decode (GetCompact x) <= x.
Proof.
  intros Hx.
  pose proof (nSize_bounds x Hx) as [Hn Hlt]; cbv zeta in Hn, Hlt.
  unfold GetCompact.
  set (n := (bits x + 7) / 8) in *.
  destruct (Z.leb_spec n 3) as [Hle|Hgt].
  - (* at most three bytes: the mantissa is the value moved up *)
    assert (H24 : x < 2 ^ 24).
    { eapply Z.lt_le_trans; [exact Hlt|]. apply Z.pow_le_mono_r; lia. }
    assert (Hlow : GetLow64 x = x) by (unfold GetLow64; apply Z.mod_small; lia).
    rewrite Hlow, Z.shiftl_mul_pow2 by lia.
    assert (Hc : 0 <= x * 2 ^ (8 * (3 - n)) < 2 ^ 24).
    { assert (Hcase : n = 0 \/ n = 1 \/ n = 2 \/ n = 3) by lia.
      destruct Hcase as [E|[E|[E|E]]]; rewrite E in *;
        cbn in Hlt |- *; lia. }
    assert (Hw : wrap_uint32 (wrap_uint64 (x * 2 ^ (8 * (3 - n))))
                 = x * 2 ^ (8 * (3 - n))).
    { assert (2 ^ 24 < 2 ^ 32 /\ 2 ^ 24 < 2 ^ 64) by (split; reflexivity).
      unfold wrap_uint32, wrap_uint64.
      rewrite (Z.mod_small _ (2 ^ 64)) by lia. apply Z.mod_small; lia. }
    rewrite Hw, land_sign_bit by exact Hc.
    assert (Hcase : n = 0 \/ n = 1 \/ n = 2 \/ n = 3) by lia.
    destruct (Z.ltb_spec (x * 2 ^ (8 * (3 - n))) (2 ^ 23)) as [Hs|Hs]; cbn [negb].
    + rewrite decode_lor by lia.
      destruct Hcase as [E|[E|[E|E]]]; rewrite E in *; cbn in Hs, Hc |- *;
        Z.div_mod_to_equations; lia.
    + rewrite Z.shiftr_div_pow2 by lia.
      assert (0 <= x * 2 ^ (8 * (3 - n)) / 2 ^ 8 < 2 ^ 23).
      { split; [apply Z.div_pos; lia|].
        apply Z.div_lt_upper_bound; [lia|]. change (2 ^ 8 * 2 ^ 23) with (2 ^ 31). lia. }
      rewrite decode_lor by lia.
      destruct Hcase as [E|[E|[E|E]]]; rewrite E in *; cbn in Hs, Hc |- *;
        try rewrite wrap_small; Z.div_mod_to_equations; lia.
  - (* more than three bytes: the mantissa is the three leading bytes *)
    unfold shr. rewrite Z.shiftr_div_pow2 by lia.
    set (k := 8 * (n - 3)) in *.
    assert (Hk : 0 < 2 ^ k) by (apply pow2_pos; lia).
    assert (Hc : 0 <= x / 2 ^ k < 2 ^ 24).
    { split; [apply Z.div_pos; lia|].
      apply Z.div_lt_upper_bound; [lia|].
      rewrite <- Z.pow_add_r by lia.
      replace (k + 24) with (8 * n) by lia. exact Hlt. }
    assert (Hw : wrap_uint32 (GetLow64 (x / 2 ^ k)) = x / 2 ^ k).
    { assert (2 ^ 24 < 2 ^ 32 /\ 2 ^ 24 < 2 ^ 64) by (split; reflexivity).
      unfold wrap_uint32, GetLow64.
      rewrite (Z.mod_small _ (2 ^ 64)) by lia. apply Z.mod_small; lia. }
    rewrite Hw, land_sign_bit by exact Hc.
    destruct (Z.ltb_spec (x / 2 ^ k) (2 ^ 23)) as [Hs|Hs]; cbn [negb].
    + rewrite decode_lor by lia.
      destruct (Z.leb_spec n 3); [lia|]. fold k.
      pose proof (Z.mul_div_le x (2 ^ k) Hk).
      rewrite wrap_small; nia.
    + rewrite Z.shiftr_div_pow2 by lia.
      assert (Hdd : x / 2 ^ k / 2 ^ 8 = x / 2 ^ (k + 8)).
      { rewrite Z.div_div, <- Z.pow_add_r by lia. reflexivity. }
      assert (Hk8 : 0 < 2 ^ (k + 8)) by (apply pow2_pos; lia).
      assert (0 <= x / 2 ^ k / 2 ^ 8 < 2 ^ 23).
      { split; [apply Z.div_pos; lia|].
        apply Z.div_lt_upper_bound; [lia|]. change (2 ^ 8 * 2 ^ 23) with (2 ^ 31). lia. }
      rewrite decode_lor by lia.
      destruct (Z.leb_spec (n + 1) 3); [lia|].
      replace (8 * (n + 1 - 3)) with (k + 8) by lia.
      rewrite Hdd in *.
      pose proof (Z.mul_div_le x (2 ^ (k + 8)) Hk8).
      rewrite wrap_small; nia.
Qed.

End CompactFacts.

(** ** Machine integers in range *)

Lemma wrap_int_small (z : Z) : in_int z -> wrap_int z = z.
Proof.
  unfold in_int, wrap_int; intros H.
  rewrite Z.mod_small; [lia|].
  change (2 ^ 32) with (2 * 2 ^ 31). lia.
Qed.

Lemma wrap_int64_small (z : Z) : in_int64 z -> wrap_int64 z = z.
Proof.
  unfold in_int64, wrap_int64; intros H.
  rewrite Z.mod_small; [lia|].
  change (2 ^ 64) with (2 * 2 ^ 63). lia.
Qed.

Lemma wrap_int_of_int64 (z : Z) : wrap_int (wrap_int64 z) = wrap_int z.
Proof.
  unfold wrap_int, wrap_int64.
  pose proof (Z.div_mod (z + 2 ^ 63) (2 ^ 64) ltac:(lia)) as E.
  replace ((z + 2 ^ 63) mod 2 ^ 64 - 2 ^ 63 + 2 ^ 31)
    with ((z + 2 ^ 31) + (- ((z + 2 ^ 63) / 2 ^ 64) * 2 ^ 32) * 2 ^ 32) by lia.
  now rewrite Z.mod_add by lia.
Qed.

(** The test of the testnet rule, when its sum does not leave [int64_t]. *)
Lemma MinDifficultyAllowed_spec pindexLast pblock params :
  in_int64 (nPowTargetSpacing params * 2) ->
  in_int64 (CBlockIndex.GetBlockTime pindexLast + nPowTargetSpacing params * 2) ->
  MinDifficultyAllowed pindexLast pblock params =
    (CBlockHeader.GetBlockTime pblock
       >? CBlockIndex.GetBlockTime pindexLast + 2 * nPowTargetSpacing params).
Proof.
  intros H1 H2. unfold MinDifficultyAllowed.
  rewrite (wrap_int64_small _ H1), (wrap_int64_small _ H2).
  f_equal; lia.
Qed.

(** ** What the rescale returns *)

Lemma Retarget_cases nBits nActualTimespan nTargetTimespan params :
  match Retarget nBits nActualTimespan nTargetTimespan params with
  | Returns bnNew => wrap_uint64 nTargetTimespan <> 0 /\ 0 <= bnNew < 2 ^ 256
  | Fails f => f = UintDivisionByZero /\ wrap_uint64 nTargetTimespan = 0
  end.
Proof.
  unfold Retarget, arith_uint256.div.
  destruct (Z.eqb_spec (wrap_uint64 nTargetTimespan) 0) as [E|E]; cbn [bind].
  - now split.
  - split; [exact E|].
    assert (Hd : 0 < wrap_uint64 nTargetTimespan).
    { unfold wrap_uint64 in *.
      pose proof (Z.mod_pos_bound nTargetTimespan (2 ^ 64) ltac:(lia)). lia. }
    match goal with |- context [arith_uint256.mul ?a ?b] =>
      pose proof (CompactFacts.wrap_range (a * wrap_uint32 b)) as Hm;
      fold (arith_uint256.mul a b) in Hm;
      set (m := arith_uint256.mul a b) in *
    end.
    destruct (fShift _ _).
    + apply CompactFacts.wrap_range.
    + split; [apply Z.div_pos; lia|].
      apply Z.le_lt_trans with m; [|lia].
      apply Z.div_le_upper_bound; [lia|]. nia.
Qed.

Lemma LimitAndGetCompact_le bnNew params :
  0 <= bnNew ->
  arith_uint256.decode (LimitAndGetCompact bnNew params)
    <= UintToArith256 (powLimit params).
Proof.
  intros Hb. unfold LimitAndGetCompact.
  pose proof (CompactFacts.wrap_range (powLimit params)) as Hl.
  fold (UintToArith256 (powLimit params)) in Hl.
  destruct (Z.gtb_spec bnNew (UintToArith256 (powLimit params))).
  - apply CompactFacts.decode_GetCompact_le; lia.
  - pose proof (CompactFacts.decode_GetCompact_le bnNew ltac:(lia)). lia.
Qed.

(** The rescale-and-limit of either calculator returns bits that decode to
    at most the limit, and fails only on a zero divisor. *)
Lemma rescale_within_limit nBits nActualTimespan nTargetTimespan params :
  match (bnNew <- Retarget nBits nActualTimespan nTargetTimespan params ;;
         Returns (LimitAndGetCompact bnNew params)) with
  | Returns nBitsNew =>
      wrap_uint64 nTargetTimespan <> 0 /\
      arith_uint256.decode nBitsNew <= UintToArith256 (powLimit params)
  | Fails f => f = UintDivisionByZero /\ wrap_uint64 nTargetTimespan = 0
  end.
Proof.
  pose proof (Retarget_cases nBits nActualTimespan nTargetTimespan params) as H.
  destruct (Retarget _ _ _ _) as [bnNew|f]; cbn [bind].
  - split; [tauto|]. apply LimitAndGetCompact_le; lia.
  - exact H.
Qed.

(** The shared routine honours [fPowNoRetargeting]. *)
Lemma CalculateNextWorkRequired_no_retargeting pindexLast nFirstBlockTime params :
  fPowNoRetargeting params = true ->
  CalculateNextWorkRequired pindexLast nFirstBlockTime params
    = Returns (nBits pindexLast).
Proof. intros H; unfold CalculateNextWorkRequired; now rewrite H. Qed.

(** C2.  With [fPowNoRetargeting] set, the per-block calculator still
    retargets: for two blocks 120 seconds apart at a 150-second spacing it
    returns bits other than those of the last block, while the shared
    routine returns the bits of the last block on the same input. *)
Theorem per_block_ignores_no_retargeting :
  let params := Examples.main_params false true in
  let pindexLast := Examples.pair 200 120 0x1e0ffff0 in
  fPowNoRetargeting params = true /\
  CalculateNextWorkRequired pindexLast 1000 params = Returns 0x1e0ffff0 /\
  GetNextWorkRequiredPerBlock (Some pindexLast) (Examples.candidate 1270) params
    = Returns 0x1e0e6658 /\
  GetNextWorkRequired (Some pindexLast) (Examples.candidate 1270) params
    = Returns 0x1e0e6658 /\
  GetNextWorkRequiredPerBlock (Some pindexLast) (Examples.candidate 1270) params
    <> Returns (nBits pindexLast).
Proof. vm_compute. repeat split; try reflexivity. discriminate. Qed.

(** C4.  Whenever the shared routine (with [fPowNoRetargeting] unset) or the
    per-block calculator (past its early return and its minimum-difficulty
    branch) performs the rescale, it returns bits that decode to a target of
    at most [powLimit]; it fails to return only when the divisor is zero. *)
Theorem rescaled_target_within_pow_limit
    (pindexLast pindexPrev : CBlockIndex.t) (nFirstBlockTime : Z)
    (pblock : CBlockHeader.t) (params : Params) :
  (fPowNoRetargeting params = false ->
   match CalculateNextWorkRequired pindexLast nFirstBlockTime params with
   | Returns nBitsNew =>
       wrap_uint64 (nPowTargetTimespan params) <> 0 /\
       arith_uint256.decode nBitsNew <= UintToArith256 (powLimit params)
   | Fails f => f = UintDivisionByZero /\ wrap_uint64 (nPowTargetTimespan params) = 0
   end) /\
  (pprev pindexLast = Some pindexPrev ->
   wrap_int (nHeight pindexLast + 1) <> nPerBlockDifficultyActivationHeight params ->
   fPowAllowMinDifficultyBlocks params
     && MinDifficultyAllowed pindexLast pblock params = false ->
   match GetNextWorkRequiredPerBlock (Some pindexLast) pblock params with
   | Returns nBitsNew =>
       wrap_uint64 (nPowTargetSpacing params) <> 0 /\
       arith_uint256.decode nBitsNew <= UintToArith256 (powLimit params)
   | Fails f => f = UintDivisionByZero /\ wrap_uint64 (nPowTargetSpacing params) = 0
   end).
Proof.
  split.
  - intros Hno. unfold CalculateNextWorkRequired. rewrite Hno.
    apply rescale_within_limit.
  - intros Hprev Hact Hmin. unfold GetNextWorkRequiredPerBlock.
    rewrite Hprev.
    destruct (Z.eqb_spec (wrap_int (nHeight pindexLast + 1))
                (nPerBlockDifficultyActivationHeight params)); [contradiction|].
    rewrite Hmin. unfold PerBlockRetarget.
    apply rescale_within_limit.
Qed.

Lemma rescaled_target_within_pow_limit_witness :
  (exists nBitsNew,
     CalculateNextWorkRequired (Examples.chain 7 0x1d00ffff) 450
       (Examples.short_params false) = Returns nBitsNew /\
     arith_uint256.decode nBitsNew <= 2 ^ 236 - 1) /\
  (exists nBitsNew,
     GetNextWorkRequiredPerBlock (Some (Examples.pair 200 120 0x1e0ffff0))
       (Examples.candidate 1270) (Examples.main_params false false)
       = Returns nBitsNew /\
     arith_uint256.decode nBitsNew <= 2 ^ 236 - 1).
Proof.
  pose proof (rescaled_target_within_pow_limit
                (Examples.chain 7 0x1d00ffff) (Examples.chain 6 0x1d00ffff)
                450 (Examples.candidate 1270) (Examples.short_params false))
    as [Hshared _].
  pose proof (rescaled_target_within_pow_limit
                (Examples.pair 200 120 0x1e0ffff0)
                (CBlockIndex.Build 199 1000 0x1e0ffff0 None)
                1000 (Examples.candidate 1270) (Examples.main_params false false))
    as [_ Hper].
  specialize (Hshared eq_refl).
  specialize (Hper eq_refl ltac:(vm_compute; discriminate) eq_refl).
  split.
  - destruct (CalculateNextWorkRequired _ _ _) as [b|f].
    + exists b. split; [reflexivity|]. exact (proj2 Hshared).
    + exfalso. destruct Hshared as [_ H0]. vm_compute in H0. discriminate H0.
  - destruct (GetNextWorkRequiredPerBlock _ _ _) as [b|f].
    + exists b. split; [reflexivity|]. exact (proj2 Hper).
    + exfalso. destruct Hper as [_ H0]. vm_compute in H0. discriminate H0.
Defined.

(** ** The minimum-difficulty exception and the activation boundary *)

(** C3.  With [fPowAllowMinDifficultyBlocks] set and a candidate more than
    two spacings after the last block, the legacy calculator returns the
    encoding of [powLimit] when the next height is not a retarget boundary,
    and the per-block calculator returns it when the last block has a
    predecessor and the next height is not the activation height. *)
Theorem min_difficulty_exception
    (pindexLast : CBlockIndex.t) (pblock : CBlockHeader.t) (params : Params) :
  fPowAllowMinDifficultyBlocks params = true ->
  in_int64 (nPowTargetSpacing params * 2) ->
  in_int64 (CBlockIndex.GetBlockTime pindexLast + nPowTargetSpacing params * 2) ->
  CBlockHeader.GetBlockTime pblock
    > CBlockIndex.GetBlockTime pindexLast + 2 * nPowTargetSpacing params ->
  (forall nInterval,
     wrap_int (nHeight pindexLast + 1) < nPerBlockDifficultyActivationHeight params ->
     DifficultyAdjustmentInterval params = Returns nInterval ->
     nInterval <> 0 ->
     Z.rem (wrap_int (nHeight pindexLast + 1)) nInterval <> 0 ->
     GetNextWorkRequired (Some pindexLast) pblock params
       = Returns (nProofOfWorkLimit params)) /\
  (pprev pindexLast <> None ->
   wrap_int (nHeight pindexLast + 1) <> nPerBlockDifficultyActivationHeight params ->
   GetNextWorkRequiredPerBlock (Some pindexLast) pblock params
     = Returns (nProofOfWorkLimit params)).
Proof.
  intros Hallow Hr1 Hr2 Hlate.
  assert (Hmin : MinDifficultyAllowed pindexLast pblock params = true).
  { rewrite MinDifficultyAllowed_spec by assumption. apply Z.gtb_lt. lia. }
  split.
  - intros nInterval Hlegacy Hint Hnz Hrem. unfold GetNextWorkRequired.
    destruct (Z.geb_spec (wrap_int (nHeight pindexLast + 1))
                (nPerBlockDifficultyActivationHeight params)); [lia|].
    rewrite Hint; cbn [bind].
    destruct (Z.eqb_spec nInterval 0); [contradiction|].
    destruct (Z.eqb_spec (Z.rem (wrap_int (nHeight pindexLast + 1)) nInterval) 0);
      [contradiction|].
    cbn [negb]. now rewrite Hallow, Hmin.
  - intros Hprev Hact. unfold GetNextWorkRequiredPerBlock.
    destruct (pprev pindexLast) as [pindexPrev|]; [|contradiction].
    destruct (Z.eqb_spec (wrap_int (nHeight pindexLast + 1))
                (nPerBlockDifficultyActivationHeight params)); [contradiction|].
    now rewrite Hallow, Hmin.
Qed.

Lemma min_difficulty_exception_witness :
  GetNextWorkRequired (Some (Examples.chain 5 0x1d00ffff))
    (Examples.candidate 1051) (Examples.short_params true)
    = Returns 0x1e0fffff /\
  GetNextWorkRequiredPerBlock (Some (Examples.chain 5 0x1d00ffff))
    (Examples.candidate 1051) (Examples.short_params true)
    = Returns 0x1e0fffff.
Proof.
  pose proof (min_difficulty_exception
                (Examples.chain 5 0x1d00ffff) (Examples.candidate 1051)
                (Examples.short_params true) eq_refl) as H.
  specialize (H ltac:(vm_compute; split; [discriminate|reflexivity])
                ltac:(vm_compute; split; [discriminate|reflexivity])
                ltac:(vm_compute; reflexivity)).
  destruct H as [Hlegacy Hper].
  split.
  - apply (Hlegacy 4); vm_compute; (reflexivity || discriminate).
  - apply Hper; vm_compute; discriminate.
Defined.

(** The exception does not reach every late candidate: the per-block
    calculator on a genesis block, and the legacy calculator at a retarget
    boundary, return other bits although the candidate is late. *)
Lemma min_difficulty_exception_counterexample :
  let params := Examples.short_params true in
  let pblock := Examples.candidate 100000 in
  let pindexGenesis := Examples.chain 0 0x1d00ffff in
  let pindexBoundary := Examples.chain 7 0x1d00ffff in
  fPowAllowMinDifficultyBlocks params = true /\
  CBlockHeader.GetBlockTime pblock
    > CBlockIndex.GetBlockTime pindexGenesis + 2 * nPowTargetSpacing params /\
  CBlockHeader.GetBlockTime pblock
    > CBlockIndex.GetBlockTime pindexBoundary + 2 * nPowTargetSpacing params /\
  GetNextWorkRequiredPerBlock (Some pindexGenesis) pblock params
    <> Returns (nProofOfWorkLimit params) /\
  GetNextWorkRequired (Some pindexBoundary) pblock params
    <> Returns (nProofOfWorkLimit params).
Proof.
  vm_compute. repeat split; try reflexivity; discriminate.
Qed.

Lemma wrap_int_succ_neq (z : Z) : in_int z -> wrap_int (z + 1) <> z.
Proof.
  unfold in_int, wrap_int; intros H.
  destruct (Z.eq_dec z (2 ^ 31 - 1)) as [->|Hne].
  - vm_compute. discriminate.
  - rewrite Z.mod_small; [lia|]. change (2 ^ 32) with (2 * 2 ^ 31). lia.
Qed.

(** ** Walking the chain *)

Module ChainFacts.
Import CBlockIndex.

(** The loop of lines 57-59 walks [blockstogoback - i] predecessor links. *)
Lemma GoBack_ancestor (b : t) :
  forall i n, GoBack b i n = ancestor (Z.to_nat (n - i)) b.
Proof.
  induction b as [h x nb|h x nb p IH] using chain_ind; intros i n; cbn [GoBack];
    destruct (Z.ltb_spec i n) as [Hlt|Hge].
  - replace (Z.to_nat (n - i)) with (S (Z.to_nat (n - (i + 1)))) by lia.
    reflexivity.
  - replace (Z.to_nat (n - i)) with O by lia. reflexivity.
  - replace (Z.to_nat (n - i)) with (S (Z.to_nat (n - (i + 1)))) by lia.
    cbn [ancestor]. apply IH.
  - replace (Z.to_nat (n - i)) with O by lia. reflexivity.
Qed.

Lemma ancestor_exists (b : t) :
  forall n, (n <= depth b)%nat -> exists f, ancestor n b = Some f.
Proof.
  induction b as [h x nb|h x nb p IH] using chain_ind; intros [|n] Hn;
    cbn [ancestor depth] in *; try (eexists; reflexivity).
  - lia.
  - apply IH. lia.
Qed.

Lemma depth_nonneg_height (b : t) : height_is_depth b -> 0 <= nHeight b.
Proof.
  unfold height_is_depth. destruct b as [h x nb [p|]]; cbn [records];
    intros H; inversion H; subst; lia.
Qed.

Lemma height_is_depth_head (b : t) :
  height_is_depth b -> nHeight b = Z.of_nat (depth b).
Proof.
  unfold height_is_depth. destruct b as [h x nb [p|]]; cbn [records];
    intros H; now inversion H.
Qed.

(** The loop of lines 41-42 runs down to genesis when no record stops it. *)
Lemma LastNonMinDifficultyBlock_genesis (nInterval nLimit : Z) (b : t) :
  nInterval <> 0 ->
  height_is_depth b ->
  Forall (fun r => nBits r = nLimit) (records b) ->
  Forall (fun r => 0 < nHeight r -> ~ (nInterval | nHeight r)) (records b) ->
  LastNonMinDifficultyBlock b nInterval nLimit = genesis b.
Proof.
  intros Hnz. unfold height_is_depth.
  induction b as [h x nb|h x nb p IH] using chain_ind;
    cbn [records LastNonMinDifficultyBlock genesis]; intros Hd Hb Hm.
  - reflexivity.
  - pose proof (Forall_inv Hd) as Hd0. pose proof (Forall_inv_tail Hd) as Hd'.
    pose proof (Forall_inv Hb) as Hb0. pose proof (Forall_inv_tail Hb) as Hb'.
    pose proof (Forall_inv Hm) as Hm0. pose proof (Forall_inv_tail Hm) as Hm'.
    cbn [nHeight nBits depth] in Hd0, Hb0, Hm0.
    assert (Hrem : Z.rem h nInterval <> 0).
    { intros E. apply Hm0; [lia|]. now apply Z.rem_divide. }
    destruct (Z.eqb_spec (Z.rem h nInterval) 0); [contradiction|].
    rewrite (proj2 (Z.eqb_eq nb nLimit) Hb0). cbn [negb andb].
    now apply IH.
Qed.

End ChainFacts.

(** The legacy calculator at a retarget boundary: the number of steps it
    asks for, and what it does with the record the walk ends on. *)
Lemma GetNextWorkRequired_at_boundary
    (pindexLast : CBlockIndex.t) (pblock : CBlockHeader.t) (params : Params)
    (nInterval : Z) :
  0 <= nHeight pindexLast ->
  in_int (nHeight pindexLast + 1) ->
  nHeight pindexLast + 1 < nPerBlockDifficultyActivationHeight params ->
  DifficultyAdjustmentInterval params = Returns nInterval ->
  1 <= nInterval ->
  (nHeight pindexLast + 1) mod nInterval = 0 ->
  nInterval <= nHeight pindexLast + 1 /\
  BlocksToGoBack pindexLast nInterval
    = (if nHeight pindexLast + 1 =? nInterval then nInterval - 1 else nInterval) /\
  GetNextWorkRequired (Some pindexLast) pblock params =
    match GoBack pindexLast 0 (BlocksToGoBack pindexLast nInterval) with
    | Some pindexFirst =>
        CalculateNextWorkRequired
          pindexLast (CBlockIndex.GetBlockTime pindexFirst) params
    | None => Fails AssertFirstNull
    end.
Proof.
  intros Hh Hr Hlegacy Hint Hpos Hmod.
  assert (Hle : nInterval <= nHeight pindexLast + 1).
  { pose proof (Z.div_mod (nHeight pindexLast + 1) nInterval ltac:(lia)) as E.
    rewrite Hmod in E.
    assert (0 < (nHeight pindexLast + 1) / nInterval) by nia. nia. }
  assert (Hri : in_int nInterval) by (unfold in_int in *; lia).
  assert (Hri' : in_int (nInterval - 1)) by (unfold in_int in *; lia).
  split; [exact Hle|]. split.
  - unfold BlocksToGoBack.
    rewrite wrap_int_of_int64, !wrap_int_small by assumption.
    now destruct (nHeight pindexLast + 1 =? nInterval).
  - unfold GetNextWorkRequired.
    rewrite (wrap_int_small _ Hr).
    destruct (Z.geb_spec (nHeight pindexLast + 1)
                (nPerBlockDifficultyActivationHeight params)); [lia|].
    rewrite Hint; cbn [bind].
    destruct (Z.eqb_spec nInterval 0); [lia|].
    rewrite Z.rem_mod_nonneg, Hmod by lia. cbn [Z.eqb negb].
    now destruct (GoBack _ _ _).
Qed.

(** C6.  At a legacy retarget boundary the legacy calculator walks back
    exactly [interval] predecessor links, or [interval - 1] when the next
    height is the interval itself (the first retarget after genesis), and
    calls the shared routine with the last block and the time of the record
    so reached. *)
Theorem legacy_retarget_walks_back_interval
    (pindexLast : CBlockIndex.t) (pblock : CBlockHeader.t) (params : Params)
    (nInterval : Z) :
  0 <= nHeight pindexLast ->
  in_int (nHeight pindexLast + 1) ->
  nHeight pindexLast + 1 < nPerBlockDifficultyActivationHeight params ->
  DifficultyAdjustmentInterval params = Returns nInterval ->
  1 <= nInterval ->
  (nHeight pindexLast + 1) mod nInterval = 0 ->
  let nBack :=
    if nHeight pindexLast + 1 =? nInterval then nInterval - 1 else nInterval in
  GetNextWorkRequired (Some pindexLast) pblock params =
    match CBlockIndex.ancestor (Z.to_nat nBack) pindexLast with
    | Some pindexFirst =>
        CalculateNextWorkRequired
          pindexLast (CBlockIndex.GetBlockTime pindexFirst) params
    | None => Fails AssertFirstNull
    end.
Proof.
  intros Hh Hr Hlegacy Hint Hpos Hmod nBack.
  destruct (GetNextWorkRequired_at_boundary
              pindexLast pblock params nInterval Hh Hr Hlegacy Hint Hpos Hmod)
    as (_ & Hback & Hcall).
  rewrite Hcall, Hback, ChainFacts.GoBack_ancestor.
  now rewrite Z.sub_0_r.
Qed.

Lemma legacy_retarget_walks_back_interval_witness :
  GetNextWorkRequired (Some (Examples.chain 7 0x1d00ffff))
    (Examples.candidate 1200) (Examples.short_params false)
    = CalculateNextWorkRequired (Examples.chain 7 0x1d00ffff)
        (CBlockIndex.GetBlockTime (Examples.chain 3 0x1d00ffff))
        (Examples.short_params false) /\
  GetNextWorkRequired (Some (Examples.chain 3 0x1d00ffff))
    (Examples.candidate 600) (Examples.short_params false)
    = CalculateNextWorkRequired (Examples.chain 3 0x1d00ffff)
        (CBlockIndex.GetBlockTime (Examples.chain 0 0x1d00ffff))
        (Examples.short_params false).
Proof.
  split.
  - apply (legacy_retarget_walks_back_interval
             (Examples.chain 7 0x1d00ffff) (Examples.candidate 1200)
             (Examples.short_params false) 4);
      vm_compute; (reflexivity || discriminate || (split; (reflexivity || discriminate))).
  - apply (legacy_retarget_walks_back_interval
             (Examples.chain 3 0x1d00ffff) (Examples.candidate 600)
             (Examples.short_params false) 4);
      vm_compute; (reflexivity || discriminate || (split; (reflexivity || discriminate))).
Defined.

(** C10.  On a chain in which every record's height is its distance from
    genesis, and for an interval of at least 1, the backward walk of the
    legacy retarget-boundary path ends on a record: [assert(pindexFirst)]
    does not fail. *)
Theorem retarget_walk_reaches_a_record
    (pindexLast : CBlockIndex.t) (pblock : CBlockHeader.t) (params : Params)
    (nInterval : Z) :
  CBlockIndex.height_is_depth pindexLast ->
  in_int (nHeight pindexLast + 1) ->
  nHeight pindexLast + 1 < nPerBlockDifficultyActivationHeight params ->
  DifficultyAdjustmentInterval params = Returns nInterval ->
  1 <= nInterval ->
  (nHeight pindexLast + 1) mod nInterval = 0 ->
  (exists pindexFirst,
     GoBack pindexLast 0 (BlocksToGoBack pindexLast nInterval) = Some pindexFirst /\
     GetNextWorkRequired (Some pindexLast) pblock params
       = CalculateNextWorkRequired
           pindexLast (CBlockIndex.GetBlockTime pindexFirst) params) /\
  GetNextWorkRequired (Some pindexLast) pblock params <> Fails AssertFirstNull.
Proof.
  intros Hchain Hr Hlegacy Hint Hpos Hmod.
  pose proof (ChainFacts.depth_nonneg_height _ Hchain) as Hh.
  pose proof (ChainFacts.height_is_depth_head _ Hchain) as Hd.
  destruct (GetNextWorkRequired_at_boundary
              pindexLast pblock params nInterval Hh Hr Hlegacy Hint Hpos Hmod)
    as (Hle & Hback & Hcall).
  assert (Hsteps : (Z.to_nat (BlocksToGoBack pindexLast nInterval - 0)
                    <= CBlockIndex.depth pindexLast)%nat).
  { rewrite Hback.
    destruct (Z.eqb_spec (nHeight pindexLast + 1) nInterval) as [E|E]; [lia|].
    pose proof (Z.div_mod (nHeight pindexLast + 1) nInterval ltac:(lia)) as D.
    rewrite Hmod in D.
    assert (2 <= (nHeight pindexLast + 1) / nInterval) by nia.
    nia. }
  destruct (ChainFacts.ancestor_exists _ _ Hsteps) as [pindexFirst Hfirst].
  rewrite <- ChainFacts.GoBack_ancestor in Hfirst.
  rewrite Hcall, Hfirst. split.
  - exists pindexFirst. now split.
  - unfold CalculateNextWorkRequired.
    destruct (fPowNoRetargeting params); [discriminate|].
    pose proof (Retarget_cases (nBits pindexLast)
                  (LimitAdjustmentStep pindexLast
                     (CBlockIndex.GetBlockTime pindexFirst) params)
                  (nPowTargetTimespan params) params) as Hc.
    destruct (Retarget _ _ _ _) as [bnNew|f]; cbn [bind]; [discriminate|].
    destruct Hc as [-> _]. discriminate.
Qed.

Lemma retarget_walk_reaches_a_record_witness :
  GetNextWorkRequired (Some (Examples.chain 7 0x1d00ffff))
    (Examples.candidate 1200) (Examples.short_params false)
    <> Fails AssertFirstNull.
Proof.
  apply (retarget_walk_reaches_a_record
           (Examples.chain 7 0x1d00ffff) (Examples.candidate 1200)
           (Examples.short_params false) 4).
  - unfold CBlockIndex.height_is_depth. cbn.
    repeat (apply Forall_cons; [reflexivity|]). apply Forall_nil.
  - vm_compute; split; [discriminate|reflexivity].
  - vm_compute; reflexivity.
  - vm_compute; reflexivity.
  - vm_compute; discriminate.
  - vm_compute; reflexivity.
Defined.

(** C9.  On a chain whose records, from the last block back to genesis, all
    carry the encoding of [powLimit] and none of which sits at a positive
    multiple of the interval, the legacy minimum-difficulty lookback (taken
    with [fPowAllowMinDifficultyBlocks] set and a timely candidate) ends at
    genesis and returns the bits of genesis. *)
Theorem min_difficulty_lookback_ends_at_genesis
    (pindexLast : CBlockIndex.t) (pblock : CBlockHeader.t) (params : Params)
    (nInterval : Z) :
  CBlockIndex.height_is_depth pindexLast ->
  Forall (fun r => nBits r = nProofOfWorkLimit params)
         (CBlockIndex.records pindexLast) ->
  Forall (fun r => 0 < nHeight r -> ~ (nInterval | nHeight r))
         (CBlockIndex.records pindexLast) ->
  in_int (nHeight pindexLast + 1) ->
  nHeight pindexLast + 1 < nPerBlockDifficultyActivationHeight params ->
  DifficultyAdjustmentInterval params = Returns nInterval ->
  nInterval <> 0 ->
  Z.rem (nHeight pindexLast + 1) nInterval <> 0 ->
  fPowAllowMinDifficultyBlocks params = true ->
  in_int64 (nPowTargetSpacing params * 2) ->
  in_int64 (CBlockIndex.GetBlockTime pindexLast + nPowTargetSpacing params * 2) ->
  CBlockHeader.GetBlockTime pblock
    <= CBlockIndex.GetBlockTime pindexLast + 2 * nPowTargetSpacing params ->
  LastNonMinDifficultyBlock pindexLast nInterval (nProofOfWorkLimit params)
    = CBlockIndex.genesis pindexLast /\
  GetNextWorkRequired (Some pindexLast) pblock params
    = Returns (nBits (CBlockIndex.genesis pindexLast)).
Proof.
  intros Hchain Hbits Hmult Hr Hlegacy Hint Hnz Hrem Hallow Hr1 Hr2 Htimely.
  pose proof (ChainFacts.LastNonMinDifficultyBlock_genesis
                nInterval (nProofOfWorkLimit params) pindexLast
                Hnz Hchain Hbits Hmult) as Hwalk.
  split; [exact Hwalk|].
  unfold GetNextWorkRequired.
  rewrite (wrap_int_small _ Hr).
  destruct (Z.geb_spec (nHeight pindexLast + 1)
              (nPerBlockDifficultyActivationHeight params)); [lia|].
  rewrite Hint; cbn [bind].
  destruct (Z.eqb_spec nInterval 0); [contradiction|].
  destruct (Z.eqb_spec (Z.rem (nHeight pindexLast + 1) nInterval) 0);
    [contradiction|].
  cbn [negb]. rewrite Hallow, MinDifficultyAllowed_spec by assumption.
  destruct (Z.gtb_spec (CBlockHeader.GetBlockTime pblock)
              (CBlockIndex.GetBlockTime pindexLast + 2 * nPowTargetSpacing params));
    [lia|].
  now rewrite Hwalk.
Qed.

Lemma min_difficulty_lookback_ends_at_genesis_witness :
  GetNextWorkRequired (Some (Examples.chain 2 0x1e0fffff))
    (Examples.candidate 450) (Examples.short_params true)
    = Returns (nBits (Examples.chain 0 0x1e0fffff)).
Proof.
  apply (min_difficulty_lookback_ends_at_genesis
           (Examples.chain 2 0x1e0fffff) (Examples.candidate 450)
           (Examples.short_params true) 4).
  - unfold CBlockIndex.height_is_depth. cbn.
    repeat (apply Forall_cons; [reflexivity|]). apply Forall_nil.
  - cbn. repeat (apply Forall_cons; [vm_compute; reflexivity|]). apply Forall_nil.
  - cbn. repeat (apply Forall_cons;
                 [intros Hpos [q Hq]; cbn in Hpos, Hq; lia|]). apply Forall_nil.
  - vm_compute; split; [discriminate|reflexivity].
  - vm_compute; reflexivity.
  - vm_compute; reflexivity.
  - discriminate.
  - vm_compute; discriminate.
  - reflexivity.
  - vm_compute; split; [discriminate|reflexivity].
  - vm_compute; split; [discriminate|reflexivity].
  - vm_compute; discriminate.
Defined.

(** ** The rescale without overflow *)

Lemma decode_range (nCompact : Z) : 0 <= arith_uint256.decode nCompact < 2 ^ 256.
Proof.
  unfold arith_uint256.decode, arith_uint256.SetCompact; cbn [fst].
  set (c := wrap_uint32 nCompact).
  assert (Hc : 0 <= c < 2 ^ 32) by (apply Z.mod_pos_bound; lia).
  assert (Hw : 0 <= Z.land c 0x007fffff < 2 ^ 23).
  { change 0x007fffff with (Z.ones 23). rewrite Z.land_ones by lia.
    apply Z.mod_pos_bound; lia. }
  destruct (Z.leb_spec (Z.shiftr c 24) 3) as [Hle|Hgt].
  - assert (0 <= Z.shiftr c 24) by (apply Z.shiftr_nonneg; lia).
    rewrite Z.shiftr_div_pow2 by lia.
    assert (Hp : 0 < 2 ^ (8 * (3 - Z.shiftr c 24))) by (apply CompactFacts.pow2_pos; lia).
    split; [apply Z.div_pos; lia|].
    apply Z.le_lt_trans with (Z.land c 0x007fffff); [|lia].
    apply Z.div_le_upper_bound; [lia|]. nia.
  - apply CompactFacts.wrap_range.
Qed.

(** The value of the rescale when neither the product nor the final shift
    leaves 256 bits: the old target, halved first if it is as long as the
    limit, times the timespan over the target timespan. *)
Lemma Retarget_no_overflow nBits nActualTimespan nTargetTimespan params :
  let bnOld := arith_uint256.decode nBits in
  0 <= nActualTimespan < 2 ^ 32 ->
  1 < nTargetTimespan < 2 ^ 64 ->
  (if fShift bnOld params then bnOld / 2 else bnOld) * nActualTimespan < 2 ^ 256 ->
  Retarget nBits nActualTimespan nTargetTimespan params =
    Returns (if fShift bnOld params
             then 2 * (bnOld / 2 * nActualTimespan / nTargetTimespan)
             else bnOld * nActualTimespan / nTargetTimespan).
Proof.
  intros bnOld Hts HT Hno.
  pose proof (decode_range nBits) as Hold. fold bnOld in Hold.
  unfold Retarget, arith_uint256.div, arith_uint256.mul, arith_uint256.shl,
    arith_uint256.shr.
  fold bnOld.
  assert (Hu32 : wrap_uint32 nActualTimespan = nActualTimespan)
    by (apply Z.mod_small; lia).
  assert (Hu64 : wrap_uint64 nTargetTimespan = nTargetTimespan)
    by (apply Z.mod_small; lia).
  rewrite Hu32, Hu64.
  destruct (Z.eqb_spec nTargetTimespan 0); [lia|].
  destruct (fShift bnOld params); cbn [bind].
  - rewrite Z.shiftr_div_pow2 by lia. change (2 ^ 1) with 2.
    assert (Hhalf : 0 <= bnOld / 2 /\ 2 * (bnOld / 2) <= bnOld).
    { pose proof (Z.div_mod bnOld 2 ltac:(lia)).
      pose proof (Z.mod_pos_bound bnOld 2 ltac:(lia)). lia. }
    assert (Hprod : 0 <= bnOld / 2 * nActualTimespan < 2 ^ 256) by nia.
    rewrite (CompactFacts.wrap_small _ Hprod).
    rewrite Z.shiftl_mul_pow2 by lia. change (2 ^ 1) with 2.
    assert (Hq : 0 <= bnOld / 2 * nActualTimespan / nTargetTimespan
                 /\ nTargetTimespan * (bnOld / 2 * nActualTimespan / nTargetTimespan)
                    <= bnOld / 2 * nActualTimespan).
    { split; [apply Z.div_pos; lia|apply Z.mul_div_le; lia]. }
    rewrite CompactFacts.wrap_small; [f_equal; lia|]. nia.
  - assert (Hprod : 0 <= bnOld * nActualTimespan < 2 ^ 256) by nia.
    now rewrite (CompactFacts.wrap_small _ Hprod).
Qed.

(** C8.  With a spacing of 150, the minimum-difficulty rule off and two
    consecutive per-block blocks 120 seconds apart, the per-block calculator
    takes 135 as the elapsed time.  When the product of the old target
    (halved if the rescale halves) with 135 fits 256 bits, it returns the
    compact encoding of the old target scaled by 135/150 and capped at the
    limit: the scaled target is the integer quotient, at most 2 below it
    under the halving and equal to it without the halving or for an old
    target that is a multiple of 20; the bits returned decode to at most the
    quotient, and to a target strictly below the old one unless the old
    target is zero. *)
Theorem per_block_scenario_120_seconds
    (pindexLast pindexPrev : CBlockIndex.t) (pblock : CBlockHeader.t)
    (params : Params) :
  let bnOld := arith_uint256.decode (nBits pindexLast) in
  let bnPowLimit := UintToArith256 (powLimit params) in
  let bnNew :=
    if fShift bnOld params then 2 * (bnOld / 2 * 135 / 150)
    else bnOld * 135 / 150 in
  nPowTargetSpacing params = 150 ->
  fPowAllowMinDifficultyBlocks params = false ->
  pprev pindexLast = Some pindexPrev ->
  wrap_int (nHeight pindexLast + 1) <> nPerBlockDifficultyActivationHeight params ->
  CBlockIndex.GetBlockTime pindexLast - CBlockIndex.GetBlockTime pindexPrev = 120 ->
  PerBlockTimespan pindexLast pindexPrev params = 135 /\
  ((if fShift bnOld params then bnOld / 2 else bnOld) * 135 < 2 ^ 256 ->
   GetNextWorkRequiredPerBlock (Some pindexLast) pblock params
     = Returns (arith_uint256.GetCompact (Z.min bnNew bnPowLimit)) /\
   bnOld * 135 / 150 - 2 <= bnNew <= bnOld * 135 / 150 /\
   (fShift bnOld params = false \/ bnOld mod 20 = 0 ->
    bnNew = bnOld * 135 / 150) /\
   arith_uint256.decode (arith_uint256.GetCompact (Z.min bnNew bnPowLimit))
     <= bnOld * 135 / 150 /\
   (0 < bnOld ->
    arith_uint256.decode (arith_uint256.GetCompact (Z.min bnNew bnPowLimit))
      < bnOld)).
Proof.
  intros bnOld bnPowLimit bnNew Hsp Hallow Hprev Hact Hgap.
  assert (Hts : PerBlockTimespan pindexLast pindexPrev params = 135).
  { unfold PerBlockTimespan. rewrite Hgap, Hsp. reflexivity. }
  split; [exact Hts|]. intros Hno.
  pose proof (decode_range (nBits pindexLast)) as Hold. fold bnOld in Hold.
  pose proof (CompactFacts.wrap_range (powLimit params)) as Hlim.
  fold (UintToArith256 (powLimit params)) in Hlim. fold bnPowLimit in Hlim.
  assert (Hbounds : 0 <= bnNew /\ bnOld * 135 / 150 - 2 <= bnNew <= bnOld * 135 / 150
                    /\ (fShift bnOld params = false \/ bnOld mod 20 = 0 ->
                        bnNew = bnOld * 135 / 150)).
  { subst bnNew. destruct (fShift bnOld params).
    - split; [|split].
      + Z.div_mod_to_equations; lia.
      + Z.div_mod_to_equations; lia.
      + intros [Hf|H20]; [discriminate|]. Z.div_mod_to_equations; lia.
    - split; [|split]; [Z.div_mod_to_equations; lia|lia|reflexivity]. }
  destruct Hbounds as (Hnn & Hclose & Hexact).
  assert (Hq : bnOld * 135 / 150 <= bnOld /\ (0 < bnOld -> bnOld * 135 / 150 < bnOld))
    by (Z.div_mod_to_equations; lia).
  assert (Hdec : arith_uint256.decode
                   (arith_uint256.GetCompact (Z.min bnNew bnPowLimit))
                 <= Z.min bnNew bnPowLimit)
    by (apply CompactFacts.decode_GetCompact_le; lia).
  split; [|split; [exact Hclose|split; [exact Hexact|split; [lia|intros; lia]]]].
  unfold GetNextWorkRequiredPerBlock. rewrite Hprev.
  destruct (Z.eqb_spec (wrap_int (nHeight pindexLast + 1))
              (nPerBlockDifficultyActivationHeight params)); [contradiction|].
  rewrite Hallow. cbn [andb]. unfold PerBlockRetarget.
  rewrite Hts, Hsp.
  assert (2 ^ 32 < 2 ^ 64) by reflexivity.
  rewrite Retarget_no_overflow by (fold bnOld; lia).
  fold bnOld. cbn [bind]. fold bnNew.
  unfold LimitAndGetCompact. fold bnPowLimit.
  destruct (Z.gtb_spec bnNew bnPowLimit);
    [rewrite Z.min_r by lia|rewrite Z.min_l by lia]; reflexivity.
Qed.

Lemma per_block_scenario_120_seconds_witness :
  (GetNextWorkRequiredPerBlock (Some (Examples.pair 200 120 0x1d00ffff))
     (Examples.candidate 1270) Examples.wide_params
     = Returns 0x1d00e665 /\
   arith_uint256.decode 0x1d00e665 < arith_uint256.decode 0x1d00ffff) /\
  (GetNextWorkRequiredPerBlock (Some (Examples.pair 200 120 0x1e0fffff))
     (Examples.candidate 1270) (Examples.main_params false false)
     = Returns 0x1e0e6665 /\
   arith_uint256.decode 0x1e0e6665 < arith_uint256.decode 0x1e0fffff).
Proof.
  split.
  - pose proof (per_block_scenario_120_seconds
                  (Examples.pair 200 120 0x1d00ffff)
                  (CBlockIndex.Build 199 1000 0x1d00ffff None)
                  (Examples.candidate 1270) Examples.wide_params
                  eq_refl eq_refl eq_refl
                  ltac:(vm_compute; discriminate) eq_refl) as (_ & H).
    destruct (H ltac:(vm_compute; reflexivity)) as (Hret & _ & _ & _ & Hlt).
    split; [exact Hret|]. exact (Hlt ltac:(vm_compute; reflexivity)).
  - pose proof (per_block_scenario_120_seconds
                  (Examples.pair 200 120 0x1e0fffff)
                  (CBlockIndex.Build 199 1000 0x1e0fffff None)
                  (Examples.candidate 1270) (Examples.main_params false false)
                  eq_refl eq_refl eq_refl
                  ltac:(vm_compute; discriminate) eq_refl) as (_ & H).
    destruct (H ltac:(vm_compute; reflexivity)) as (Hret & _ & _ & _ & Hlt).
    split; [exact Hret|]. exact (Hlt ltac:(vm_compute; reflexivity)).
Defined.

(** The scenario does not give the scaled target on every input.  Under a
    limit of 255 bits and at the bits of that limit the product leaves 256
    bits, and the bits returned are not those of the scaled target.  Where
    the product fits, the bits returned keep the leading bytes only and
    decode below the integer quotient.  And a zero target stays zero. *)
Lemma per_block_scenario_120_seconds_counterexample :
  let params := Examples.wide_params in
  let pblock := Examples.candidate 1270 in
  nPowTargetSpacing params = 150 /\
  fPowAllowMinDifficultyBlocks params = false /\
  (let pindexLast := Examples.pair 200 120 0x207fffff in
   GetNextWorkRequiredPerBlock (Some pindexLast) pblock params
     = Returns 0x20028f5b /\
   arith_uint256.GetCompact (arith_uint256.decode (nBits pindexLast) * 135 / 150)
     = 0x20733332 /\
   arith_uint256.decode 0x20028f5b
     <> arith_uint256.decode (nBits pindexLast) * 135 / 150) /\
  (let pindexLast := Examples.pair 200 120 0x1d00ffff in
   GetNextWorkRequiredPerBlock (Some pindexLast) pblock params
     = Returns 0x1d00e665 /\
   arith_uint256.decode 0x1d00e665
     <> arith_uint256.decode (nBits pindexLast) * 135 / 150) /\
  (let pindexLast := Examples.pair 200 120 0x1d000000 in
   GetNextWorkRequiredPerBlock (Some pindexLast) pblock params = Returns 0 /\
   ~ (arith_uint256.decode 0 < arith_uint256.decode (nBits pindexLast))).
Proof.
  vm_compute. repeat split; try reflexivity; discriminate.
Qed.

(** ** Bounds on one adjustment step *)

(** A timespan kept within [nMin, nMax] moves the target by at most
    [nMax / nTargetTimespan] upwards and, up to the rounding of the integer
    division and of the halving, by at most [nMin / nTargetTimespan]
    downwards. *)
Lemma Retarget_step_bounds nBits nActualTimespan nTargetTimespan nMin nMax params :
  let bnOld := arith_uint256.decode nBits in
  1 < nTargetTimespan < 2 ^ 64 ->
  0 <= nMin <= nActualTimespan ->
  nActualTimespan <= nMax < 2 ^ 32 ->
  (if fShift bnOld params then bnOld / 2 else bnOld) * nMax < 2 ^ 256 ->
  exists bnNew,
    Retarget nBits nActualTimespan nTargetTimespan params = Returns bnNew /\
    nTargetTimespan * bnNew <= nMax * bnOld /\
    nMin * (bnOld - 1) < nTargetTimespan * (bnNew + 2).
Proof.
  intros bnOld HT Hlo Hhi Hno.
  pose proof (decode_range nBits) as Hold. fold bnOld in Hold.
  assert (Hhalf : 0 <= bnOld / 2 /\ 2 * (bnOld / 2) <= bnOld
                  /\ bnOld - 1 <= 2 * (bnOld / 2)).
  { pose proof (Z.div_mod bnOld 2 ltac:(lia)).
    pose proof (Z.mod_pos_bound bnOld 2 ltac:(lia)). lia. }
  assert (Hprod : (if fShift bnOld params then bnOld / 2 else bnOld)
                  * nActualTimespan < 2 ^ 256).
  { destruct (fShift bnOld params); nia. }
  rewrite Retarget_no_overflow by (fold bnOld; lia). fold bnOld.
  eexists; split; [reflexivity|].
  destruct (fShift bnOld params).
  - set (X := bnOld / 2) in *.
    pose proof (Z.mul_div_le (X * nActualTimespan) nTargetTimespan ltac:(lia)) as Hd1.
    pose proof (Z.mul_succ_div_gt (X * nActualTimespan) nTargetTimespan ltac:(lia))
      as Hd2.
    unfold Z.succ in Hd2.
    set (Y := X * nActualTimespan / nTargetTimespan) in *.
    split; [nia|].
    apply Z.le_lt_trans with (nActualTimespan * (2 * X)); [|nia].
    destruct (Z.eq_dec bnOld 0) as [E|E]; [rewrite E; nia|].
    apply Z.le_trans with (nActualTimespan * (bnOld - 1)); nia.
  - pose proof (Z.mul_div_le (bnOld * nActualTimespan) nTargetTimespan ltac:(lia))
      as Hd1.
    pose proof (Z.mul_succ_div_gt (bnOld * nActualTimespan) nTargetTimespan ltac:(lia))
      as Hd2.
    unfold Z.succ in Hd2.
    set (Y := bnOld * nActualTimespan / nTargetTimespan) in *.
    split; [nia|].
    apply Z.le_lt_trans with (nActualTimespan * bnOld); [|nia].
    destruct (Z.eq_dec bnOld 0) as [E|E]; [rewrite E; nia|].
    apply Z.le_trans with (nActualTimespan * (bnOld - 1)); nia.
Qed.

(** The limits of lines 136-152 and of lines 95-101. *)
Lemma LimitAdjustmentStep_range pindexLast nFirstBlockTime params :
  let T := nPowTargetTimespan params in
  0 < T -> T * 6 < 2 ^ 32 ->
  if nHeight pindexLast >=? nDifficultyChangeActivationHeight params
  then T * 2 / 3 <= LimitAdjustmentStep pindexLast nFirstBlockTime params <= T * 6
  else T / 4 <= LimitAdjustmentStep pindexLast nFirstBlockTime params <= T * 4.
Proof.
  intros T Hpos Hsmall. unfold LimitAdjustmentStep. fold T.
  assert (H2 : wrap_int64 (T * 2) = T * 2) by (apply wrap_int64_small; unfold in_int64; lia).
  assert (H4 : wrap_int64 (T * 4) = T * 4) by (apply wrap_int64_small; unfold in_int64; lia).
  assert (H6 : wrap_int64 (T * 6) = T * 6) by (apply wrap_int64_small; unfold in_int64; lia).
  rewrite H2, H4, H6, !Z.quot_div_nonneg by lia.
  assert (T * 2 / 3 <= T * 6)
    by (apply Z.le_trans with (T * 2); [apply Z.div_le_upper_bound|]; lia).
  assert (T / 4 <= T * 4)
    by (apply Z.le_trans with T; [apply Z.div_le_upper_bound|]; lia).
  destruct (_ >=? _);
    repeat match goal with
           | |- context [?a <? ?b] => destruct (Z.ltb_spec a b)
           | |- context [?a >? ?b] => destruct (Z.gtb_spec a b)
           end; lia.
Qed.

Lemma PerBlockTimespan_range pindexLast pindexPrev params :
  let S := nPowTargetSpacing params in
  0 < S -> S * 12 < 2 ^ 32 ->
  S * 9 / 10 <= PerBlockTimespan pindexLast pindexPrev params <= S * 12 / 10.
Proof.
  intros S Hpos Hsmall. unfold PerBlockTimespan. fold S.
  assert (H9 : wrap_int64 (S * 9) = S * 9) by (apply wrap_int64_small; unfold in_int64; lia).
  assert (H12 : wrap_int64 (S * 12) = S * 12) by (apply wrap_int64_small; unfold in_int64; lia).
  rewrite H9, H12, !Z.quot_div_nonneg by lia.
  assert (S * 9 / 10 <= S * 12 / 10) by (apply Z.div_le_mono; lia).
  repeat match goal with
         | |- context [?a <? ?b] => destruct (Z.ltb_spec a b)
         | |- context [?a >? ?b] => destruct (Z.gtb_spec a b)
         end; lia.
Qed.

(** C7.  With a target timespan (spacing) above 1 whose multiples fit 32
    bits, and an old target whose product with the largest timespan fits 256
    bits (after the halving, when the rescale halves), every rescale returns
    a target, before the comparison with the limit, within these bounds of
    the old one: at most 4 times it before the difficulty-change activation,
    6 times it from the activation on, and 12/10 of it for the per-block
    calculator; and not below timespan_floor / target_timespan of it (1/4,
    2/3 and 9/10 when the floor divides exactly), up to the rounding of the
    integer division and of the halving. *)
Theorem adjustment_step_bounds
    (pindexLast pindexPrev : CBlockIndex.t) (nFirstBlockTime : Z) (params : Params) :
  let bnOld := arith_uint256.decode (nBits pindexLast) in
  let bnScaled := if fShift bnOld params then bnOld / 2 else bnOld in
  let T := nPowTargetTimespan params in
  let S := nPowTargetSpacing params in
  (1 < T -> T * 6 < 2 ^ 32 ->
   bnScaled * (if nHeight pindexLast >=? nDifficultyChangeActivationHeight params
               then T * 6 else T * 4) < 2 ^ 256 ->
   exists bnNew,
     Retarget (nBits pindexLast)
       (LimitAdjustmentStep pindexLast nFirstBlockTime params) T params
       = Returns bnNew /\
     if nHeight pindexLast >=? nDifficultyChangeActivationHeight params
     then bnNew <= 6 * bnOld /\ (T * 2 / 3) * (bnOld - 1) < T * (bnNew + 2)
     else bnNew <= 4 * bnOld /\ (T / 4) * (bnOld - 1) < T * (bnNew + 2)) /\
  (1 < S -> S * 12 < 2 ^ 32 ->
   bnScaled * (S * 12 / 10) < 2 ^ 256 ->
   exists bnNew,
     Retarget (nBits pindexLast)
       (PerBlockTimespan pindexLast pindexPrev params) S params
       = Returns bnNew /\
     10 * bnNew <= 12 * bnOld /\ (S * 9 / 10) * (bnOld - 1) < S * (bnNew + 2)).
Proof.
  intros bnOld bnScaled T S. split.
  - intros Hpos Hsmall Hno.
    pose proof (LimitAdjustmentStep_range pindexLast nFirstBlockTime params
                  ltac:(fold T; lia) Hsmall) as Hr. fold T in Hr.
    destruct (nHeight pindexLast >=? nDifficultyChangeActivationHeight params).
    + destruct (Retarget_step_bounds (nBits pindexLast)
                  (LimitAdjustmentStep pindexLast nFirstBlockTime params)
                  T (T * 2 / 3) (T * 6) params)
        as (bnNew & Hret & Hup & Hdown);
        try (fold bnOld; fold bnScaled); try lia.
      { split; [apply Z.div_pos; lia|lia]. }
      exists bnNew. split; [exact Hret|]. fold bnOld in Hup, Hdown.
      split; [nia|exact Hdown].
    + destruct (Retarget_step_bounds (nBits pindexLast)
                  (LimitAdjustmentStep pindexLast nFirstBlockTime params)
                  T (T / 4) (T * 4) params)
        as (bnNew & Hret & Hup & Hdown);
        try (fold bnOld; fold bnScaled); try lia.
      { split; [apply Z.div_pos; lia|lia]. }
      exists bnNew. split; [exact Hret|]. fold bnOld in Hup, Hdown.
      split; [nia|exact Hdown].
  - intros Hpos Hsmall Hno.
    pose proof (PerBlockTimespan_range pindexLast pindexPrev params
                  ltac:(fold S; lia) Hsmall)
      as Hr. fold S in Hr.
    assert (Hmax : 10 * (S * 12 / 10) <= S * 12)
      by (apply Z.mul_div_le; lia).
    destruct (Retarget_step_bounds (nBits pindexLast)
                (PerBlockTimespan pindexLast pindexPrev params)
                S (S * 9 / 10) (S * 12 / 10) params)
      as (bnNew & Hret & Hup & Hdown);
      try (fold bnOld; fold bnScaled); try lia.
    { split; [apply Z.div_pos; lia|lia]. }
    exists bnNew. split; [exact Hret|]. fold bnOld in Hup, Hdown.
    pose proof (decode_range (nBits pindexLast)) as Hold. fold bnOld in Hold.
    split; [nia|exact Hdown].
Qed.

Lemma adjustment_step_bounds_witness :
  let params := Examples.main_params false false in
  let pindexLast := Examples.pair 10 120 0x1e0ffff0 in
  let pindexPrev := CBlockIndex.Build 9 1000 0x1e0ffff0 None in
  let bnOld := arith_uint256.decode 0x1e0ffff0 in
  (exists bnNew,
     Retarget 0x1e0ffff0 (LimitAdjustmentStep pindexLast 1000 params) 302400 params
       = Returns bnNew /\
     bnNew <= 4 * bnOld /\ 302400 / 4 * (bnOld - 1) < 302400 * (bnNew + 2)) /\
  (exists bnNew,
     Retarget 0x1e0ffff0 (PerBlockTimespan pindexLast pindexPrev params) 150 params
       = Returns bnNew /\
     10 * bnNew <= 12 * bnOld /\ 150 * 9 / 10 * (bnOld - 1) < 150 * (bnNew + 2)).
Proof.
  intros params pindexLast pindexPrev bnOld.
  pose proof (adjustment_step_bounds pindexLast pindexPrev 1000 params) as [HL HP].
  split.
  - apply HL; vm_compute; reflexivity.
  - apply HP; vm_compute; reflexivity.
Defined.

(** The bounds fail as exact ratios.  The integer division rounds: an old
    target of [0x7fffff] rescaled over a quarter of the timespan becomes
    [0x1fffff], less than a quarter of it.  And the product leaves 256 bits
    when the limit is 255 bits long: two on-schedule blocks at the bits of
    such a limit make the per-block rescale return a target more than 70
    times smaller. *)
Lemma adjustment_step_bounds_counterexample :
  (let params := Examples.main_params false false in
   let pindexLast := Examples.pair 10 120 0x037fffff in
   nHeight pindexLast < nDifficultyChangeActivationHeight params /\
   arith_uint256.decode (nBits pindexLast) = 0x7fffff /\
   Retarget (nBits pindexLast) (LimitAdjustmentStep pindexLast 1000 params)
     (nPowTargetTimespan params) params = Returns 0x1fffff /\
   ~ (arith_uint256.decode (nBits pindexLast) <= 4 * 0x1fffff)) /\
  (let params := Examples.wide_params in
   let pindexLast := Examples.pair 200 150 0x207fffff in
   let pindexPrev := CBlockIndex.Build 199 1000 0x207fffff None in
   exists bnNew,
     PerBlockTimespan pindexLast pindexPrev params = nPowTargetSpacing params /\
     Retarget (nBits pindexLast) (PerBlockTimespan pindexLast pindexPrev params)
       (nPowTargetSpacing params) params = Returns bnNew /\
     ~ (arith_uint256.decode (nBits pindexLast) <= 70 * bnNew)).
Proof.
  split.
  - vm_compute. repeat split; try reflexivity. intros H; exact (H eq_refl).
  - eexists. vm_compute. repeat split; try reflexivity. intros H; exact (H eq_refl).
Qed.

(** * Further properties of the calculators and of the verifier *)

(** ** What the calculators read *)

(** X1.  Between two retargets, on a network without the minimum-difficulty
    rule, the legacy calculator returns the bits of the last block
    unchanged (lines 28-47). *)
Theorem legacy_between_retargets_keeps_bits
    (pindexLast : CBlockIndex.t) (pblock : CBlockHeader.t) (params : Params)
    (nInterval : Z) :
  wrap_int (nHeight pindexLast + 1) < nPerBlockDifficultyActivationHeight params ->
  DifficultyAdjustmentInterval params = Returns nInterval ->
  nInterval <> 0 ->
  Z.rem (wrap_int (nHeight pindexLast + 1)) nInterval <> 0 ->
  fPowAllowMinDifficultyBlocks params = false ->
  GetNextWorkRequired (Some pindexLast) pblock params = Returns (nBits pindexLast).
Proof.
  intros Hlegacy Hint Hnz Hrem Hallow. unfold GetNextWorkRequired.
  destruct (Z.geb_spec (wrap_int (nHeight pindexLast + 1))
              (nPerBlockDifficultyActivationHeight params)); [lia|].
  rewrite Hint; cbn [bind].
  destruct (Z.eqb_spec nInterval 0); [contradiction|].
  destruct (Z.eqb_spec (Z.rem (wrap_int (nHeight pindexLast + 1)) nInterval) 0);
    [contradiction|].
  cbn [negb]. now rewrite Hallow.
Qed.

Lemma legacy_between_retargets_keeps_bits_witness :
  GetNextWorkRequired (Some (Examples.chain 5 0x1d00ffff))
    (Examples.candidate 100000) (Examples.short_params false)
    = Returns 0x1d00ffff.
Proof.
  apply (legacy_between_retargets_keeps_bits
           (Examples.chain 5 0x1d00ffff) (Examples.candidate 100000)
           (Examples.short_params false) 4);
    vm_compute; (reflexivity || discriminate).
Defined.

(** X2.  Without [fPowAllowMinDifficultyBlocks] neither calculator looks at the
    candidate block: the required work is the same for every candidate. *)
Theorem candidate_ignored_without_min_difficulty_rule
    (pindexLast : option CBlockIndex.t) (pblock pblock' : CBlockHeader.t)
    (params : Params) :
  fPowAllowMinDifficultyBlocks params = false ->
  GetNextWorkRequired pindexLast pblock params
    = GetNextWorkRequired pindexLast pblock' params /\
  GetNextWorkRequiredPerBlock pindexLast pblock params
    = GetNextWorkRequiredPerBlock pindexLast pblock' params.
Proof.
  intros Hallow.
  assert (Hper : GetNextWorkRequiredPerBlock pindexLast pblock params
                 = GetNextWorkRequiredPerBlock pindexLast pblock' params).
  { unfold GetNextWorkRequiredPerBlock. now rewrite Hallow. }
  split; [|exact Hper].
  destruct pindexLast as [pindexLast|]; [|reflexivity].
  unfold GetNextWorkRequired. rewrite Hper, Hallow. reflexivity.
Qed.

Lemma candidate_ignored_without_min_difficulty_rule_witness :
  GetNextWorkRequired (Some (Examples.pair 200 120 0x1e0ffff0))
    (Examples.candidate 1270) (Examples.main_params false false)
  = GetNextWorkRequired (Some (Examples.pair 200 120 0x1e0ffff0))
      (Examples.candidate 99999) (Examples.main_params false false).
Proof.
  exact (proj1 (candidate_ignored_without_min_difficulty_rule
                  (Some (Examples.pair 200 120 0x1e0ffff0))
                  (Examples.candidate 1270) (Examples.candidate 99999)
                  (Examples.main_params false false) eq_refl)).
Defined.

(** X3.  The per-block calculator reads the last block and the time of its
    predecessor, and of the parameters only the limit, the spacing, the
    minimum-difficulty flag and its own activation height: neither the rest
    of the chain, nor the height or bits of the predecessor, nor the target
    timespan, the no-retargeting flag or the difficulty-change height enter
    the result. *)
Theorem per_block_reads_two_blocks
    (h t b : Z) (pindexPrev pindexPrev' : CBlockIndex.t)
    (pblock : CBlockHeader.t) (params params' : Params) :
  CBlockIndex.GetBlockTime pindexPrev = CBlockIndex.GetBlockTime pindexPrev' ->
  powLimit params = powLimit params' ->
  nPowTargetSpacing params = nPowTargetSpacing params' ->
  fPowAllowMinDifficultyBlocks params = fPowAllowMinDifficultyBlocks params' ->
  nPerBlockDifficultyActivationHeight params
    = nPerBlockDifficultyActivationHeight params' ->
  GetNextWorkRequiredPerBlock
    (Some (CBlockIndex.Build h t b (Some pindexPrev))) pblock params
  = GetNextWorkRequiredPerBlock
      (Some (CBlockIndex.Build h t b (Some pindexPrev'))) pblock params'.
Proof.
  intros Ht Hl Hs Ha Hh.
  unfold GetNextWorkRequiredPerBlock, PerBlockRetarget, PerBlockTimespan,
    MinDifficultyAllowed, Retarget, fShift, LimitAndGetCompact, nProofOfWorkLimit.
  unfold CBlockIndex.GetBlockTime in *.
  cbn [pprev nHeight nBits CBlockIndex.nTime].
  now rewrite Ht, Hl, Hs, Ha, Hh.
Qed.

Lemma per_block_reads_two_blocks_witness :
  GetNextWorkRequiredPerBlock
    (Some (CBlockIndex.Build 200 1120 0x1e0ffff0
             (Some (CBlockIndex.Build 199 1000 0x1e0ffff0 None))))
    (Examples.candidate 1270) (Examples.main_params false false)
  = GetNextWorkRequiredPerBlock
      (Some (CBlockIndex.Build 200 1120 0x1e0ffff0
               (Some (CBlockIndex.Build 7 1000 0x1d00ffff
                        (Some (Examples.chain 3 0))))))
      (Examples.candidate 1270) (Examples.main_params false true).
Proof.
  apply (per_block_reads_two_blocks 200 1120 0x1e0ffff0); reflexivity.
Defined.

(** ** How the per-block calculator can fail *)

(** X4.  On a block index that is there, the per-block calculator returns
    whenever the spacing is not zero as a 64-bit unsigned number; it fails in
    no other way than the division by a zero spacing, and only on the
    rescale. *)
Theorem per_block_fails_only_on_zero_spacing
    (pindexLast : CBlockIndex.t) (pblock : CBlockHeader.t) (params : Params) :
  match GetNextWorkRequiredPerBlock (Some pindexLast) pblock params with
  | Returns _ => True
  | Fails f =>
      f = UintDivisionByZero /\
      wrap_uint64 (nPowTargetSpacing params) = 0 /\
      pprev pindexLast <> None /\
      wrap_int (nHeight pindexLast + 1) <> nPerBlockDifficultyActivationHeight params
  end.
Proof.
  unfold GetNextWorkRequiredPerBlock.
  destruct (pprev pindexLast) as [pindexPrev|]; [|exact I].
  destruct (Z.eqb_spec (wrap_int (nHeight pindexLast + 1))
              (nPerBlockDifficultyActivationHeight params)); [exact I|].
  destruct (_ && _); [exact I|].
  unfold PerBlockRetarget.
  pose proof (Retarget_cases (nBits pindexLast)
                (PerBlockTimespan pindexLast pindexPrev params)
                (nPowTargetSpacing params) params) as Hc.
  destruct (Retarget _ _ _ _); cbn [bind]; [exact I|].
  destruct Hc as [-> Hz]. repeat split; [exact Hz|discriminate|assumption].
Qed.

(** ** The verifier *)

(** X5.  [CheckProofOfWork] is monotone: a hash accepted for some bits stays
    accepted when the hash gets smaller and when the limit gets larger. *)
Theorem CheckProofOfWork_monotone
    (hash hash' nBits : Z) (params params' : Params) :
  CheckProofOfWork hash nBits params = true ->
  UintToArith256 hash' <= UintToArith256 hash ->
  UintToArith256 (powLimit params) <= UintToArith256 (powLimit params') ->
  CheckProofOfWork hash' nBits params' = true.
Proof.
  unfold CheckProofOfWork.
  destruct (arith_uint256.SetCompact nBits) as [[bnTarget fNegative] fOverflow].
  destruct fNegative, fOverflow, (Z.eqb_spec bnTarget 0); cbn [orb];
    try discriminate.
  intros H Hh Hl.
  destruct (Z.gtb_spec bnTarget (UintToArith256 (powLimit params)));
    [discriminate|].
  destruct (Z.gtb_spec (UintToArith256 hash) bnTarget); [discriminate|].
  destruct (Z.gtb_spec bnTarget (UintToArith256 (powLimit params'))); [lia|].
  destruct (Z.gtb_spec (UintToArith256 hash') bnTarget); [lia|reflexivity].
Qed.

Lemma CheckProofOfWork_monotone_witness :
  CheckProofOfWork (2 ^ 200) 0x1d00ffff Examples.wide_params = true.
Proof.
  apply (CheckProofOfWork_monotone (2 ^ 223) (2 ^ 200) 0x1d00ffff
           (Examples.main_params false false) Examples.wide_params);
    vm_compute; (reflexivity || discriminate).
Defined.

(** X6.  An accepted hash is positive-target work within the limit: the hash is
    at most the target of the bits, which is not zero and at most
    [powLimit]; in particular no hash is accepted under a zero limit, and a
    hash above the limit is rejected whatever the bits. *)
Theorem CheckProofOfWork_accepts_within_limit
    (hash nBits : Z) (params : Params) :
  CheckProofOfWork hash nBits params = true ->
  UintToArith256 hash <= arith_uint256.decode nBits /\
  0 < arith_uint256.decode nBits <= UintToArith256 (powLimit params) /\
  UintToArith256 hash <= UintToArith256 (powLimit params) /\
  UintToArith256 (powLimit params) <> 0.
Proof.
  pose proof (decode_range nBits) as Hd.
  unfold CheckProofOfWork, arith_uint256.decode in *.
  destruct (arith_uint256.SetCompact nBits) as [[bnTarget fNegative] fOverflow].
  cbn [fst] in *.
  destruct fNegative, fOverflow, (Z.eqb_spec bnTarget 0); cbn [orb];
    try discriminate.
  destruct (Z.gtb_spec bnTarget (UintToArith256 (powLimit params)));
    [discriminate|].
  destruct (Z.gtb_spec (UintToArith256 hash) bnTarget); [discriminate|].
  intros _. lia.
Qed.

Lemma CheckProofOfWork_accepts_within_limit_witness :
  UintToArith256 (2 ^ 200) <= arith_uint256.decode 0x1d00ffff /\
  0 < arith_uint256.decode 0x1d00ffff
    <= UintToArith256 (powLimit (Examples.main_params false false)) /\
  UintToArith256 (2 ^ 200)
    <= UintToArith256 (powLimit (Examples.main_params false false)) /\
  UintToArith256 (powLimit (Examples.main_params false false)) <> 0.
Proof.
  apply (CheckProofOfWork_accepts_within_limit (2 ^ 200) 0x1d00ffff
           (Examples.main_params false false)).
  vm_compute; reflexivity.
Defined.

(** ** The minimum-difficulty lookback in general *)

(** Where the loop of lines 41-42 stops: the records it passes all have a
    predecessor, a height off the retarget boundary and the bits of the
    limit; the record it stops on has no predecessor, or sits on a boundary,
    or has other bits. *)
Lemma LastNonMinDifficultyBlock_stops (nInterval nLimit : Z) (b : CBlockIndex.t) :
  exists skipped,
    CBlockIndex.records b
      = skipped ++ CBlockIndex.records
                     (LastNonMinDifficultyBlock b nInterval nLimit) /\
    Forall (fun r => pprev r <> None /\ Z.rem (nHeight r) nInterval <> 0
                     /\ nBits r = nLimit) skipped /\
    (pprev (LastNonMinDifficultyBlock b nInterval nLimit) = None \/
     Z.rem (nHeight (LastNonMinDifficultyBlock b nInterval nLimit)) nInterval = 0 \/
     nBits (LastNonMinDifficultyBlock b nInterval nLimit) <> nLimit).
Proof.
  induction b as [h x nb|h x nb p IH] using CBlockIndex.chain_ind.
  - exists []. cbn. repeat split; auto.
  - cbn [LastNonMinDifficultyBlock].
    destruct (Z.eqb_spec (Z.rem h nInterval) 0) as [Hr|Hr];
      destruct (Z.eqb_spec nb nLimit) as [Hb|Hb]; cbn [negb andb].
    + exists []. split; [reflexivity|]. split; [constructor|]. right; left; exact Hr.
    + exists []. split; [reflexivity|]. split; [constructor|]. right; left; exact Hr.
    + destruct IH as (skipped & Hrec & Hall & Hstop).
      exists (CBlockIndex.Build h x nb (Some p) :: skipped).
      split; [cbn [CBlockIndex.records app]; now rewrite <- Hrec|].
      split; [|exact Hstop].
      constructor; [|exact Hall]. cbn. repeat split; [discriminate|exact Hr|exact Hb].
    + exists []. split; [reflexivity|]. split; [constructor|]. right; right; exact Hb.
Qed.

(** X7.  With the minimum-difficulty rule on and a timely candidate, between two
    retargets, the legacy calculator returns the bits of the first record,
    going back from the last block, that has no predecessor, sits on a
    retarget boundary or does not carry the bits of the limit; every record
    before it carries the bits of the limit. *)
Theorem min_difficulty_lookback_returns_first_real_bits
    (pindexLast : CBlockIndex.t) (pblock : CBlockHeader.t) (params : Params)
    (nInterval : Z) :
  wrap_int (nHeight pindexLast + 1) < nPerBlockDifficultyActivationHeight params ->
  DifficultyAdjustmentInterval params = Returns nInterval ->
  nInterval <> 0 ->
  Z.rem (wrap_int (nHeight pindexLast + 1)) nInterval <> 0 ->
  fPowAllowMinDifficultyBlocks params = true ->
  in_int64 (nPowTargetSpacing params * 2) ->
  in_int64 (CBlockIndex.GetBlockTime pindexLast + nPowTargetSpacing params * 2) ->
  CBlockHeader.GetBlockTime pblock
    <= CBlockIndex.GetBlockTime pindexLast + 2 * nPowTargetSpacing params ->
  exists skipped pindex,
    GetNextWorkRequired (Some pindexLast) pblock params = Returns (nBits pindex) /\
    CBlockIndex.records pindexLast = skipped ++ CBlockIndex.records pindex /\
    Forall (fun r => pprev r <> None /\ Z.rem (nHeight r) nInterval <> 0
                     /\ nBits r = nProofOfWorkLimit params) skipped /\
    (pprev pindex = None \/ Z.rem (nHeight pindex) nInterval = 0 \/
     nBits pindex <> nProofOfWorkLimit params).
Proof.
  intros Hlegacy Hint Hnz Hrem Hallow Hr1 Hr2 Htimely.
  destruct (LastNonMinDifficultyBlock_stops
              nInterval (nProofOfWorkLimit params) pindexLast)
    as (skipped & Hrec & Hall & Hstop).
  exists skipped,
    (LastNonMinDifficultyBlock pindexLast nInterval (nProofOfWorkLimit params)).
  split; [|now repeat split].
  unfold GetNextWorkRequired.
  destruct (Z.geb_spec (wrap_int (nHeight pindexLast + 1))
              (nPerBlockDifficultyActivationHeight params)); [lia|].
  rewrite Hint; cbn [bind].
  destruct (Z.eqb_spec nInterval 0); [contradiction|].
  destruct (Z.eqb_spec (Z.rem (wrap_int (nHeight pindexLast + 1)) nInterval) 0);
    [contradiction|].
  cbn [negb]. rewrite Hallow, MinDifficultyAllowed_spec by assumption.
  destruct (Z.gtb_spec (CBlockHeader.GetBlockTime pblock)
              (CBlockIndex.GetBlockTime pindexLast + 2 * nPowTargetSpacing params));
    [lia|reflexivity].
Qed.

Lemma min_difficulty_lookback_returns_first_real_bits_witness :
  exists skipped pindex,
    GetNextWorkRequired
      (Some (CBlockIndex.Build 6 900 0x1e0fffff
               (Some (CBlockIndex.Build 5 750 0x1e0fffff
                        (Some (Examples.chain 4 0x1d00ffff))))))
      (Examples.candidate 1000) (Examples.short_params true)
      = Returns (nBits pindex) /\
    CBlockIndex.records
      (CBlockIndex.Build 6 900 0x1e0fffff
         (Some (CBlockIndex.Build 5 750 0x1e0fffff
                  (Some (Examples.chain 4 0x1d00ffff)))))
      = skipped ++ CBlockIndex.records pindex /\
    Forall (fun r => pprev r <> None /\ Z.rem (nHeight r) 4 <> 0
                     /\ nBits r = nProofOfWorkLimit (Examples.short_params true))
           skipped /\
    (pprev pindex = None \/ Z.rem (nHeight pindex) 4 = 0 \/
     nBits pindex <> nProofOfWorkLimit (Examples.short_params true)).
Proof.
  apply (min_difficulty_lookback_returns_first_real_bits
           (CBlockIndex.Build 6 900 0x1e0fffff
              (Some (CBlockIndex.Build 5 750 0x1e0fffff
                       (Some (Examples.chain 4 0x1d00ffff)))))
           (Examples.candidate 1000) (Examples.short_params true) 4);
    vm_compute; (reflexivity || discriminate || (split; (reflexivity || discriminate))).
Defined.

(** ** When the required work is defined *)

Lemma CalculateNextWorkRequired_returns pindexLast nFirstBlockTime params :
  wrap_uint64 (nPowTargetTimespan params) <> 0 ->
  exists nBitsNew,
    CalculateNextWorkRequired pindexLast nFirstBlockTime params = Returns nBitsNew.
Proof.
  intros HT. unfold CalculateNextWorkRequired.
  destruct (fPowNoRetargeting params); [eexists; reflexivity|].
  pose proof (Retarget_cases (nBits pindexLast)
                (LimitAdjustmentStep pindexLast nFirstBlockTime params)
                (nPowTargetTimespan params) params) as Hc.
  destruct (Retarget _ _ _ _); cbn [bind]; [eexists; reflexivity|].
  destruct Hc as [_ Hz]. contradiction.
Qed.

Lemma GetNextWorkRequiredPerBlock_returns pindexLast pblock params :
  wrap_uint64 (nPowTargetSpacing params) <> 0 ->
  exists nBitsNew,
    GetNextWorkRequiredPerBlock (Some pindexLast) pblock params = Returns nBitsNew.
Proof.
  intros HS. unfold GetNextWorkRequiredPerBlock.
  destruct (pprev pindexLast) as [pindexPrev|]; [|eexists; reflexivity].
  destruct (_ =? _); [eexists; reflexivity|].
  destruct (_ && _); [eexists; reflexivity|].
  unfold PerBlockRetarget.
  pose proof (Retarget_cases (nBits pindexLast)
                (PerBlockTimespan pindexLast pindexPrev params)
                (nPowTargetSpacing params) params) as Hc.
  destruct (Retarget _ _ _ _); cbn [bind]; [eexists; reflexivity|].
  destruct Hc as [_ Hz]. contradiction.
Qed.

(** On a chain whose heights are the distances from genesis, the walk of
    the retarget boundary ends on a record. *)
Lemma GoBack_at_boundary_reaches
    (pindexLast : CBlockIndex.t) (pblock : CBlockHeader.t) (params : Params)
    (nInterval : Z) :
  CBlockIndex.height_is_depth pindexLast ->
  in_int (nHeight pindexLast + 1) ->
  nHeight pindexLast + 1 < nPerBlockDifficultyActivationHeight params ->
  DifficultyAdjustmentInterval params = Returns nInterval ->
  1 <= nInterval ->
  (nHeight pindexLast + 1) mod nInterval = 0 ->
  exists pindexFirst,
    GetNextWorkRequired (Some pindexLast) pblock params
      = CalculateNextWorkRequired
          pindexLast (CBlockIndex.GetBlockTime pindexFirst) params.
Proof.
  intros Hchain Hr Hlegacy Hint Hpos Hmod.
  pose proof (ChainFacts.depth_nonneg_height _ Hchain) as Hh.
  pose proof (ChainFacts.height_is_depth_head _ Hchain) as Hd.
  destruct (GetNextWorkRequired_at_boundary
              pindexLast pblock params nInterval Hh Hr Hlegacy Hint Hpos Hmod)
    as (Hle & Hback & Hcall).
  assert (Hsteps : (Z.to_nat (BlocksToGoBack pindexLast nInterval - 0)
                    <= CBlockIndex.depth pindexLast)%nat).
  { rewrite Hback.
    destruct (Z.eqb_spec (nHeight pindexLast + 1) nInterval) as [E|E]; [lia|].
    pose proof (Z.div_mod (nHeight pindexLast + 1) nInterval ltac:(lia)) as D.
    rewrite Hmod in D.
    assert (2 <= (nHeight pindexLast + 1) / nInterval) by nia.
    nia. }
  destruct (ChainFacts.ancestor_exists _ _ Hsteps) as [pindexFirst Hfirst].
  rewrite <- ChainFacts.GoBack_ancestor in Hfirst.
  exists pindexFirst. now rewrite Hcall, Hfirst.
Qed.

(** X8.  With a positive spacing, a timespan of at least one spacing, and a chain
    whose heights are the distances from genesis, [GetNextWorkRequired]
    returns bits for every last block and every candidate: no assertion
    fails and no division is by zero. *)
Theorem GetNextWorkRequired_returns
    (pindexLast : CBlockIndex.t) (pblock : CBlockHeader.t) (params : Params) :
  CBlockIndex.height_is_depth pindexLast ->
  in_int (nHeight pindexLast + 1) ->
  0 < nPowTargetSpacing params ->
  nPowTargetSpacing params <= nPowTargetTimespan params ->
  nPowTargetTimespan params < 2 ^ 63 ->
  exists nBitsNew,
    GetNextWorkRequired (Some pindexLast) pblock params = Returns nBitsNew.
Proof.
  intros Hchain Hr HS HST HT.
  set (S := nPowTargetSpacing params) in *.
  set (T := nPowTargetTimespan params) in *.
  assert (HwS : wrap_uint64 S <> 0).
  { unfold wrap_uint64. rewrite Z.mod_small; lia. }
  assert (HwT : wrap_uint64 T <> 0).
  { unfold wrap_uint64. rewrite Z.mod_small; lia. }
  destruct (Z.lt_ge_cases (nHeight pindexLast + 1)
              (nPerBlockDifficultyActivationHeight params)) as [Hlegacy|Hper].
  - assert (Hq : 1 <= T / S <= T).
    { split; [apply Z.div_le_lower_bound; lia|].
      apply Z.div_le_upper_bound; [lia|nia]. }
    assert (Hint : DifficultyAdjustmentInterval params = Returns (T / S)).
    { unfold DifficultyAdjustmentInterval. fold S T.
      destruct (Z.eqb_spec S 0); [lia|].
      rewrite Z.quot_div_nonneg, wrap_int64_small by (unfold in_int64; lia).
      reflexivity. }
    pose proof (ChainFacts.depth_nonneg_height _ Hchain) as Hh.
    destruct (Z.eq_dec ((nHeight pindexLast + 1) mod (T / S)) 0) as [Hmod|Hmod].
    + destruct (GoBack_at_boundary_reaches pindexLast pblock params (T / S)
                  Hchain Hr Hlegacy Hint ltac:(lia) Hmod) as [pindexFirst ->].
      now apply CalculateNextWorkRequired_returns.
    + unfold GetNextWorkRequired. rewrite (wrap_int_small _ Hr).
      destruct (Z.geb_spec (nHeight pindexLast + 1)
                  (nPerBlockDifficultyActivationHeight params)); [lia|].
      rewrite Hint; cbn [bind].
      destruct (Z.eqb_spec (T / S) 0); [lia|].
      rewrite Z.rem_mod_nonneg by lia.
      destruct (Z.eqb_spec ((nHeight pindexLast + 1) mod (T / S)) 0);
        [contradiction|].
      cbn [negb].
      destruct (fPowAllowMinDifficultyBlocks params); [|eexists; reflexivity].
      destruct (MinDifficultyAllowed _ _ _); eexists; reflexivity.
  - unfold GetNextWorkRequired. rewrite (wrap_int_small _ Hr).
    destruct (Z.geb_spec (nHeight pindexLast + 1)
                (nPerBlockDifficultyActivationHeight params)); [|lia].
    now apply GetNextWorkRequiredPerBlock_returns.
Qed.

Lemma GetNextWorkRequired_returns_witness :
  exists nBitsNew,
    GetNextWorkRequired (Some (Examples.chain 7 0x1d00ffff))
      (Examples.candidate 1200) (Examples.short_params true) = Returns nBitsNew.
Proof.
  apply (GetNextWorkRequired_returns
           (Examples.chain 7 0x1d00ffff) (Examples.candidate 1200)
           (Examples.short_params true)).
  - unfold CBlockIndex.height_is_depth. cbn.
    repeat (apply Forall_cons; [reflexivity|]). apply Forall_nil.
  - vm_compute; split; [discriminate|reflexivity].
  - vm_compute; reflexivity.
  - vm_compute; discriminate.
  - vm_compute; reflexivity.
Defined.

(** X9.  Before the per-block activation, with [fPowNoRetargeting] set and the
    minimum-difficulty rule off, the difficulty is frozen: on a chain whose
    heights are the distances from genesis the legacy calculator returns the
    bits of the last block at every height, retarget boundary or not. *)
Theorem legacy_no_retargeting_freezes_bits
    (pindexLast : CBlockIndex.t) (pblock : CBlockHeader.t) (params : Params)
    (nInterval : Z) :
  CBlockIndex.height_is_depth pindexLast ->
  in_int (nHeight pindexLast + 1) ->
  nHeight pindexLast + 1 < nPerBlockDifficultyActivationHeight params ->
  DifficultyAdjustmentInterval params = Returns nInterval ->
  1 <= nInterval ->
  fPowNoRetargeting params = true ->
  fPowAllowMinDifficultyBlocks params = false ->
  GetNextWorkRequired (Some pindexLast) pblock params = Returns (nBits pindexLast).
Proof.
  intros Hchain Hr Hlegacy Hint Hpos Hno Hallow.
  pose proof (ChainFacts.depth_nonneg_height _ Hchain) as Hh.
  destruct (Z.eq_dec ((nHeight pindexLast + 1) mod nInterval) 0) as [Hmod|Hmod].
  - destruct (GoBack_at_boundary_reaches pindexLast pblock params nInterval
                Hchain Hr Hlegacy Hint Hpos Hmod) as [pindexFirst ->].
    now apply CalculateNextWorkRequired_no_retargeting.
  - unfold GetNextWorkRequired. rewrite (wrap_int_small _ Hr).
    destruct (Z.geb_spec (nHeight pindexLast + 1)
                (nPerBlockDifficultyActivationHeight params)); [lia|].
    rewrite Hint; cbn [bind].
    destruct (Z.eqb_spec nInterval 0); [lia|].
    rewrite Z.rem_mod_nonneg by lia.
    destruct (Z.eqb_spec ((nHeight pindexLast + 1) mod nInterval) 0);
      [contradiction|].
    cbn [negb]. now rewrite Hallow.
Qed.

Lemma legacy_no_retargeting_freezes_bits_witness :
  GetNextWorkRequired (Some (Examples.chain 7 0x1d00ffff))
    (Examples.candidate 1200)
    {| powLimit := 2 ^ 236 - 1;
       nPowTargetSpacing := 150;
       nPowTargetTimespan := 600;
       fPowAllowMinDifficultyBlocks := false;
       fPowNoRetargeting := true;
       nPerBlockDifficultyActivationHeight := 100000;
       nDifficultyChangeActivationHeight := 50000 |}
    = Returns 0x1d00ffff.
Proof.
  apply (legacy_no_retargeting_freezes_bits
           (Examples.chain 7 0x1d00ffff) (Examples.candidate 1200) _ 4).
  - unfold CBlockIndex.height_is_depth. cbn.
    repeat (apply Forall_cons; [reflexivity|]). apply Forall_nil.
  - vm_compute; split; [discriminate|reflexivity].
  - vm_compute; reflexivity.
  - vm_compute; reflexivity.
  - vm_compute; discriminate.
  - reflexivity.
  - reflexivity.
Defined.

(** ** The compact encoding, exactly *)

Module CompactExact.
Import arith_uint256.

Lemma bits_gt_iff (x m : Z) : 0 < x -> 0 <= m -> (2 ^ m <= x <-> m < bits x).
Proof.
  intros Hx Hm. pose proof (CompactFacts.bits_bounds x Hx) as [Hlo Hhi].
  assert (Hb : 0 < bits x).
  { unfold bits. destruct (Z.eqb_spec x 0); [lia|].
    pose proof (Z.log2_nonneg x). lia. }
  split; intros H.
  - apply (Z.pow_lt_mono_r_iff 2); lia.
  - apply Z.le_trans with (2 ^ (bits x - 1)); [|exact Hlo].
    apply Z.pow_le_mono_r; lia.
Qed.

Lemma land_bit23_clear (c n : Z) :
  0 <= c < 2 ^ 23 -> 0 <= n ->
  Z.land (c + n * 2 ^ 24) 0x00800000 = 0.
Proof.
  intros Hc Hn. change 0x00800000 with (2 ^ 23).
  apply Z.bits_inj'; intros k Hk.
  rewrite Z.land_spec, Z.bits_0, Z.pow2_bits_eqb by lia.
  destruct (Z.eqb_spec 23 k) as [<-|]; [|apply andb_false_r].
  rewrite andb_true_r.
  pose proof (Z.testbit_spec' (c + n * 2 ^ 24) 23 ltac:(lia)) as T.
  replace (c + n * 2 ^ 24) with (c + (n * 2) * 2 ^ 23) in T
    by (change (2 ^ 24) with (2 * 2 ^ 23); lia).
  rewrite Z.div_add, Z.div_small, Z.add_0_l, Z.mod_mul in T by lia.
  replace (c + n * 2 ^ 24) with (c + (n * 2) * 2 ^ 23)
    by (change (2 ^ 24) with (2 * 2 ^ 23); lia).
  now destruct (Z.testbit _ 23).
Qed.

(** All three results of decoding a word put together from a 23-bit mantissa
    and a size. *)
Lemma SetCompact_lor (c n : Z) :
  0 <= c < 2 ^ 23 -> 0 <= n < 256 ->
  SetCompact (Z.lor c (Z.shiftl n 24)) =
    (decode (Z.lor c (Z.shiftl n 24)), false,
     let nWord := if n <=? 3 then c / 2 ^ (8 * (3 - n)) else c in
     negb (nWord =? 0) &&
     ((n >? 34) || ((nWord >? 0xff) && (n >? 33))
                || ((nWord >? 0xffff) && (n >? 32)))).
Proof.
  intros Hc Hn.
  assert (Hadd : Z.lor c (Z.shiftl n 24) = c + n * 2 ^ 24).
  { rewrite Z.shiftl_mul_pow2 by lia.
    pose proof (Z.add_lor_land c (n * 2 ^ 24)) as Hsum.
    enough (Z.land c (n * 2 ^ 24) = 0) by lia.
    apply Z.bits_inj'; intros k Hk.
    rewrite Z.land_spec, Z.bits_0.
    destruct (Z.ltb_spec k 24).
    - rewrite (Z.mul_pow2_bits_low n 24 k) by lia. apply andb_false_r.
    - rewrite (Z.bits_above_log2 c k); [reflexivity|lia|].
      destruct (Z.eq_dec c 0) as [->|]; [cbn; lia|].
      assert (Z.log2 c < 23) by (apply Z.log2_lt_pow2; lia). lia. }
  unfold decode. rewrite Hadd.
  assert (Hw : wrap_uint32 (c + n * 2 ^ 24) = c + n * 2 ^ 24).
  { unfold wrap_uint32. apply Z.mod_small.
    change (2 ^ 32) with (256 * 2 ^ 24). nia. }
  assert (Hsz : Z.shiftr (c + n * 2 ^ 24) 24 = n).
  { rewrite Z.shiftr_div_pow2, Z.div_add, Z.div_small by lia. lia. }
  assert (Hword : Z.land (c + n * 2 ^ 24) 0x007fffff = c).
  { change 0x007fffff with (Z.ones 23). rewrite Z.land_ones by lia.
    replace (n * 2 ^ 24) with ((n * 2) * 2 ^ 23)
      by (change (2 ^ 24) with (2 * 2 ^ 23); lia).
    rewrite Z.mod_add by lia. apply Z.mod_small; lia. }
  unfold SetCompact. cbn [fst].
  rewrite Hw, Hsz, Hword, land_bit23_clear by lia.
  cbn [Z.eqb negb]. rewrite andb_false_r.
  destruct (Z.leb_spec n 3); rewrite ?Z.shiftr_div_pow2 by lia; reflexivity.
Qed.

(** What [GetCompact] builds for a nonzero value: the size is the number of
    bytes that hold the value and a clear top bit, the mantissa the three
    leading bytes at that size. *)
Lemma GetCompact_spec (x : Z) :
  0 < x < 2 ^ 256 ->
  let n := bits x / 8 + 1 in
  let c := if n <=? 3 then x * 2 ^ (8 * (3 - n)) else x / 2 ^ (8 * (n - 3)) in
  GetCompact x = Z.lor c (Z.shiftl n 24) /\ 0 <= c < 2 ^ 23 /\ 1 <= n <= 33.
Proof.
  intros Hx n c.
  pose proof (CompactFacts.nSize_bounds x ltac:(lia)) as [Hn0 Hlt]; cbv zeta in Hn0, Hlt.
  pose proof (CompactFacts.bits_range x ltac:(lia)) as Hb.
  pose proof (CompactFacts.bits_bounds x ltac:(lia)) as [Hblo Hbhi].
  assert (Hbpos : 1 <= bits x).
  { unfold bits. destruct (Z.eqb_spec x 0); [lia|].
    pose proof (Z.log2_nonneg x). lia. }
  assert (Hn0b : 8 * ((bits x + 7) / 8) - 7 <= bits x <= 8 * ((bits x + 7) / 8))
    by (Z.div_mod_to_equations; lia).
  unfold GetCompact.
  set (n0 := (bits x + 7) / 8) in *.
  assert (Hn0pos : 1 <= n0) by lia.
  (* the sign test on the leading bytes is a test on the length *)
  assert (Htop : forall c0, 0 <= c0 < 2 ^ 24 ->
                 (2 ^ 23 <= c0 <-> 2 ^ (8 * n0 - 1) <= x) ->
                 (c0 <? 2 ^ 23) = negb (bits x =? 8 * n0)).
  { intros c0 Hc0 Hiff.
    rewrite (bits_gt_iff x (8 * n0 - 1)) in Hiff by lia.
    destruct (Z.ltb_spec c0 (2 ^ 23)), (Z.eqb_spec (bits x) (8 * n0));
      cbn [negb]; try reflexivity; exfalso; lia. }
  destruct (Z.leb_spec n0 3) as [Hle|Hgt].
  - assert (H24 : x < 2 ^ 24).
    { eapply Z.lt_le_trans; [exact Hlt|]. apply Z.pow_le_mono_r; lia. }
    assert (Hlow : GetLow64 x = x) by (unfold GetLow64; apply Z.mod_small; lia).
    rewrite Hlow, Z.shiftl_mul_pow2 by lia.
    assert (Hcase : n0 = 1 \/ n0 = 2 \/ n0 = 3) by lia.
    assert (Hc0 : 0 <= x * 2 ^ (8 * (3 - n0)) < 2 ^ 24
                  /\ (2 ^ 23 <= x * 2 ^ (8 * (3 - n0)) <-> 2 ^ (8 * n0 - 1) <= x)).
    { destruct Hcase as [E|[E|E]]; rewrite E in *; cbn in Hlt |- *; lia. }
    destruct Hc0 as [Hc0 Hiff].
    assert (Hw : wrap_uint32 (wrap_uint64 (x * 2 ^ (8 * (3 - n0))))
                 = x * 2 ^ (8 * (3 - n0))).
    { assert (2 ^ 24 < 2 ^ 32 /\ 2 ^ 24 < 2 ^ 64) by (split; reflexivity).
      unfold wrap_uint32, wrap_uint64.
      rewrite (Z.mod_small _ (2 ^ 64)) by lia. apply Z.mod_small; lia. }
    rewrite Hw, CompactFacts.land_sign_bit, (Htop _ Hc0 Hiff), negb_involutive
      by exact Hc0.
    pose proof (Htop _ Hc0 Hiff) as Hlt23.
    destruct (Z.eqb_spec (bits x) (8 * n0)) as [Eb|Eb]; cbn [negb] in Hlt23.
    + (* the top bit is set: one byte more *)
      apply Z.ltb_ge in Hlt23.
      assert (En : n = n0 + 1) by (subst n; rewrite Eb; Z.div_mod_to_equations; lia).
      subst c. rewrite En. rewrite Z.shiftr_div_pow2 by lia.
      destruct Hcase as [E|[E|E]]; rewrite E in *; cbn in Hc0, Hlt23 |- *;
        (split; [f_equal|split; [|lia]]); Z.div_mod_to_equations; lia.
    + apply Z.ltb_lt in Hlt23.
      assert (En : n = n0) by (subst n; Z.div_mod_to_equations; lia).
      subst c. rewrite En.
      destruct (Z.leb_spec n0 3); [|lia].
      split; [reflexivity|]. lia.
  - unfold shr. rewrite Z.shiftr_div_pow2 by lia.
    set (k := 8 * (n0 - 3)) in *.
    assert (Hk : 0 < 2 ^ k) by (apply CompactFacts.pow2_pos; lia).
    assert (Hpow : 2 ^ (8 * n0 - 1) = 2 ^ 23 * 2 ^ k).
    { rewrite <- Z.pow_add_r by lia. f_equal. lia. }
    assert (Hc0 : 0 <= x / 2 ^ k < 2 ^ 24).
    { split; [apply Z.div_pos; lia|].
      apply Z.div_lt_upper_bound; [lia|].
      rewrite <- Z.pow_add_r by lia.
      replace (k + 24) with (8 * n0) by lia. exact Hlt. }
    assert (Hiff : 2 ^ 23 <= x / 2 ^ k <-> 2 ^ (8 * n0 - 1) <= x).
    { rewrite Hpow. split; intros H.
      - pose proof (Z.mul_div_le x (2 ^ k) Hk). nia.
      - apply Z.div_le_lower_bound; lia. }
    assert (Hw : wrap_uint32 (GetLow64 (x / 2 ^ k)) = x / 2 ^ k).
    { assert (2 ^ 24 < 2 ^ 32 /\ 2 ^ 24 < 2 ^ 64) by (split; reflexivity).
      unfold wrap_uint32, GetLow64.
      rewrite (Z.mod_small _ (2 ^ 64)) by lia. apply Z.mod_small; lia. }
    rewrite Hw, CompactFacts.land_sign_bit, (Htop _ Hc0 Hiff), negb_involutive
      by exact Hc0.
    pose proof (Htop _ Hc0 Hiff) as Hlt23.
    destruct (Z.eqb_spec (bits x) (8 * n0)) as [Eb|Eb]; cbn [negb] in Hlt23.
    + apply Z.ltb_ge in Hlt23.
      assert (En : n = n0 + 1) by (subst n; rewrite Eb; Z.div_mod_to_equations; lia).
      subst c. rewrite En. rewrite Z.shiftr_div_pow2 by lia.
      destruct (Z.leb_spec (n0 + 1) 3); [lia|].
      replace (8 * (n0 + 1 - 3)) with (k + 8) by lia.
      assert (Hdd : x / 2 ^ k / 2 ^ 8 = x / 2 ^ (k + 8)).
      { rewrite Z.div_div, <- Z.pow_add_r by lia. reflexivity. }
      rewrite Hdd. split; [reflexivity|]. split; [|lia].
      rewrite <- Hdd. split; [apply Z.div_pos; lia|].
      apply Z.div_lt_upper_bound; [lia|]. change (2 ^ 8 * 2 ^ 23) with (2 ^ 31). lia.
    + apply Z.ltb_lt in Hlt23.
      assert (En : n = n0) by (subst n; Z.div_mod_to_equations; lia).
      subst c. rewrite En.
      destruct (Z.leb_spec n0 3); [lia|]. fold k.
      split; [reflexivity|]. lia.
Qed.

End CompactExact.

Module CompactRoundTrip.
Import arith_uint256.

(** The exponent, in bits, below which [GetCompact] drops the value. *)
Lemma dropped_bits_range (x : Z) :
  0 <= x < 2 ^ 256 -> 0 <= 8 * Z.max 0 (bits x / 8 - 2) <= 240.
Proof.
  intros Hx. pose proof (CompactFacts.bits_range x Hx).
  Z.div_mod_to_equations; lia.
Qed.

(** Decoding what [GetCompact] returns gives the value with its low bytes
    cleared, and neither the negative nor the overflow flag. *)
Lemma SetCompact_GetCompact (x : Z) :
  0 <= x < 2 ^ 256 ->
  let e := 8 * Z.max 0 (bits x / 8 - 2) in
  SetCompact (GetCompact x) = (x / 2 ^ e * 2 ^ e, false, false).
Proof.
  intros Hx e.
  destruct (Z.eq_dec x 0) as [->|Hnz]; [reflexivity|].
  destruct (CompactExact.GetCompact_spec x ltac:(lia)) as (Hget & Hc & Hn).
  cbv zeta in Hget, Hc, Hn.
  pose proof (CompactFacts.bits_range x Hx) as Hb.
  set (n := bits x / 8 + 1) in *.
  rewrite Hget, CompactExact.SetCompact_lor by lia.
  rewrite CompactFacts.decode_lor by lia. cbv zeta.
  destruct (Z.leb_spec n 3) as [Hle|Hgt].
  - assert (He : e = 0) by (subst e n; lia).
    assert (Hp : 0 < 2 ^ (8 * (3 - n))) by (apply CompactFacts.pow2_pos; lia).
    rewrite He, Z.div_mul by lia. change (2 ^ 0) with 1.
    rewrite Z.div_1_r, Z.mul_1_r.
    destruct (Z.gtb_spec n 34); [lia|].
    destruct (Z.gtb_spec n 33); [lia|].
    destruct (Z.gtb_spec n 32); [lia|].
    now rewrite !andb_false_r.
  - assert (He : e = 8 * (n - 3)) by (subst e n; lia).
    rewrite He.
    assert (Hp : 0 < 2 ^ (8 * (n - 3))) by (apply CompactFacts.pow2_pos; lia).
    pose proof (Z.mul_div_le x (2 ^ (8 * (n - 3))) Hp) as Hle.
    rewrite CompactFacts.wrap_small by nia.
    destruct (Z.gtb_spec n 34); [lia|].
    destruct (Z.gtb_spec n 33); [lia|].
    cbn [orb]. rewrite andb_false_r. cbn [orb].
    destruct (Z.gtb_spec n 32) as [H33|]; [|now rewrite !andb_false_r].
    assert (En : n = 33) by lia. rewrite En in *.
    assert (x / 2 ^ (8 * (33 - 3)) < 2 ^ 16).
    { apply Z.div_lt_upper_bound; [lia|].
      change (2 ^ (8 * (33 - 3)) * 2 ^ 16) with (2 ^ 256). lia. }
    destruct (Z.gtb_spec (x / 2 ^ (8 * (33 - 3))) 0xffff);
      [change 0xffff with (2 ^ 16 - 1) in *; lia|].
    now rewrite !andb_false_r.
Qed.

Lemma decode_GetCompact (x : Z) :
  0 <= x < 2 ^ 256 ->
  decode (GetCompact x)
    = x / 2 ^ (8 * Z.max 0 (bits x / 8 - 2)) * 2 ^ (8 * Z.max 0 (bits x / 8 - 2)).
Proof.
  intros Hx. unfold decode. now rewrite (SetCompact_GetCompact x Hx).
Qed.

(** A 23-bit mantissa at a whole number of bytes survives the encoding. *)
Lemma decode_GetCompact_mantissa (m k : Z) :
  0 <= m < 2 ^ 23 -> 0 <= k -> k mod 8 = 0 -> m * 2 ^ k < 2 ^ 256 ->
  decode (GetCompact (m * 2 ^ k)) = m * 2 ^ k.
Proof.
  intros Hm Hk Hk8 Hlt.
  assert (Hp : 0 < 2 ^ k) by (apply CompactFacts.pow2_pos; lia).
  set (x := m * 2 ^ k) in *.
  assert (Hx : 0 <= x < 2 ^ 256) by (subst x; nia).
  rewrite (decode_GetCompact x Hx).
  destruct (Z.eq_dec x 0) as [E|Hnz]; [rewrite E; reflexivity|].
  set (e := 8 * Z.max 0 (bits x / 8 - 2)).
  assert (Hbits : bits x <= 23 + k).
  { destruct (Z.le_gt_cases (bits x) (23 + k)) as [|Hgt]; [assumption|].
    apply (CompactExact.bits_gt_iff x (23 + k)) in Hgt; [|lia|lia].
    rewrite Z.pow_add_r in Hgt by lia. subst x. nia. }
  pose proof (CompactFacts.bits_range x Hx) as Hb.
  assert (He : 0 <= e <= k) by (subst e; Z.div_mod_to_equations; lia).
  assert (Hsplit : x = m * 2 ^ (k - e) * 2 ^ e).
  { subst x. rewrite <- Z.mul_assoc, <- Z.pow_add_r by lia. do 2 f_equal. lia. }
  assert (Hpe : 0 < 2 ^ e) by (apply CompactFacts.pow2_pos; lia).
  rewrite Hsplit at 1. rewrite Z.div_mul by lia. now rewrite <- Hsplit.
Qed.

(** Every decoded target is of that shape, so encoding a decoded target and
    decoding again gives the target back. *)
Lemma decode_shape (nBits : Z) :
  exists m k,
    decode nBits = m * 2 ^ k /\
    0 <= m < 2 ^ 23 /\ 0 <= k /\ k mod 8 = 0 /\ m * 2 ^ k < 2 ^ 256.
Proof.
  unfold decode, SetCompact; cbn [fst].
  set (c := wrap_uint32 nBits).
  assert (Hc : 0 <= c < 2 ^ 32) by (apply Z.mod_pos_bound; lia).
  assert (Hw : 0 <= Z.land c 0x007fffff < 2 ^ 23).
  { change 0x007fffff with (Z.ones 23). rewrite Z.land_ones by lia.
    apply Z.mod_pos_bound; lia. }
  set (m := Z.land c 0x007fffff) in *.
  assert (Hn : 0 <= Z.shiftr c 24) by (apply Z.shiftr_nonneg; lia).
  set (n := Z.shiftr c 24) in *.
  destruct (Z.leb_spec n 3) as [Hle|Hgt].
  - rewrite Z.shiftr_div_pow2 by lia.
    assert (Hp : 0 < 2 ^ (8 * (3 - n))) by (apply CompactFacts.pow2_pos; lia).
    assert (Hq : 0 <= m / 2 ^ (8 * (3 - n)) < 2 ^ 23).
    { split; [apply Z.div_pos; lia|].
      apply Z.le_lt_trans with m; [|lia].
      apply Z.div_le_upper_bound; [lia|]. nia. }
    exists (m / 2 ^ (8 * (3 - n))), 0. change (2 ^ 0) with 1.
    rewrite Z.mul_1_r. repeat split; try lia; reflexivity.
  - unfold shl. rewrite Z.shiftl_mul_pow2 by lia.
    set (k := 8 * (n - 3)) in *.
    destruct (Z.le_gt_cases 256 k) as [Hbig|Hsmall].
    + assert (Hz : wrap (m * 2 ^ k) = 0).
      { unfold wrap. replace k with ((k - 256) + 256) by lia.
        rewrite Z.pow_add_r, Z.mul_assoc by lia. apply Z.mod_mul. lia. }
      rewrite Hz. exists 0, 0. repeat split; try lia; reflexivity.
    + assert (Hpk : 0 < 2 ^ k) by (apply CompactFacts.pow2_pos; lia).
      assert (Hpr : 0 < 2 ^ (256 - k)) by (apply CompactFacts.pow2_pos; lia).
      assert (Hpow : 2 ^ 256 = 2 ^ (256 - k) * 2 ^ k).
      { rewrite <- Z.pow_add_r by lia. f_equal. lia. }
      assert (Hz : wrap (m * 2 ^ k) = (m mod 2 ^ (256 - k)) * 2 ^ k).
      { unfold wrap. rewrite Hpow, Z.mul_mod_distr_r by lia. reflexivity. }
      rewrite Hz.
      pose proof (Z.mod_pos_bound m (2 ^ (256 - k)) Hpr) as Hmm.
      assert (Hmle : m mod 2 ^ (256 - k) <= m) by (apply Z.mod_le; lia).
      exists (m mod 2 ^ (256 - k)), k.
      split; [reflexivity|]. split; [lia|]. split; [lia|].
      split; [subst k; Z.div_mod_to_equations; lia|].
      rewrite Hpow. nia.
Qed.

Lemma decode_GetCompact_decode (nBits : Z) :
  decode (GetCompact (decode nBits)) = decode nBits.
Proof.
  destruct (decode_shape nBits) as (m & k & -> & Hm & Hk & Hk8 & Hlt).
  now apply decode_GetCompact_mantissa.
Qed.

(** The encoding is monotone on what it keeps. *)
Lemma decode_GetCompact_monotone (x y : Z) :
  0 <= x -> x <= y -> y < 2 ^ 256 ->
  decode (GetCompact x) <= decode (GetCompact y).
Proof.
  intros Hx0 Hxy Hy.
  rewrite (decode_GetCompact x), (decode_GetCompact y) by lia.
  destruct (Z.eq_dec x 0) as [->|Hnz].
  { change (bits 0) with 0. change (8 * Z.max 0 (0 / 8 - 2)) with 0.
    change (0 / 2 ^ 0 * 2 ^ 0) with 0.
    pose proof (dropped_bits_range y ltac:(lia)) as He.
    assert (0 < 2 ^ (8 * Z.max 0 (bits y / 8 - 2)))
      by (apply CompactFacts.pow2_pos; lia).
    assert (0 <= y / 2 ^ (8 * Z.max 0 (bits y / 8 - 2)))
      by (apply Z.div_pos; lia).
    apply Z.mul_nonneg_nonneg; lia. }
  pose proof (CompactFacts.bits_bounds x ltac:(lia)) as [Hxlo Hxhi].
  pose proof (CompactFacts.bits_bounds y ltac:(lia)) as [Hylo Hyhi].
  pose proof (CompactFacts.bits_range x ltac:(lia)) as Hbx.
  pose proof (CompactFacts.bits_range y ltac:(lia)) as Hby.
  assert (Hmono : bits x <= bits y).
  { destruct (Z.le_gt_cases (bits x) (bits y)) as [|Hgt]; [assumption|].
    exfalso.
    assert (2 ^ bits y <= 2 ^ (bits x - 1)) by (apply Z.pow_le_mono_r; lia).
    lia. }
  set (ex := 8 * Z.max 0 (bits x / 8 - 2)).
  set (ey := 8 * Z.max 0 (bits y / 8 - 2)).
  assert (Hex : 0 <= ex <= ey) by (subst ex ey; Z.div_mod_to_equations; lia).
  assert (Hpx : 0 < 2 ^ ex) by (apply CompactFacts.pow2_pos; lia).
  assert (Hpy : 0 < 2 ^ ey) by (apply CompactFacts.pow2_pos; lia).
  destruct (Z.eq_dec ex ey) as [E|Hne].
  - rewrite <- E. apply Z.mul_le_mono_nonneg_r; [lia|].
    apply Z.div_le_mono; lia.
  - (* [y] is at least a byte longer: its leading bit alone exceeds [x] *)
    assert (Hlen : bits x <= bits y - 1 /\ ey <= bits y - 1)
      by (subst ex ey; Z.div_mod_to_equations; lia).
    apply Z.le_trans with x; [pose proof (Z.mul_div_le x (2 ^ ex) Hpx); lia|].
    apply Z.le_trans with (2 ^ (bits y - 1)).
    + apply Z.le_trans with (2 ^ bits x); [lia|]. apply Z.pow_le_mono_r; lia.
    + assert (Hsplit : 2 ^ (bits y - 1) = 2 ^ (bits y - 1 - ey) * 2 ^ ey).
      { rewrite <- Z.pow_add_r by lia. f_equal. lia. }
      rewrite Hsplit. apply Z.mul_le_mono_nonneg_r; [lia|].
      apply Z.div_le_lower_bound; [lia|]. rewrite Z.mul_comm, <- Hsplit. lia.
Qed.

End CompactRoundTrip.

(** ** The limited timespans as clamps *)

Lemma LimitAdjustmentStep_clamp pindexLast nFirstBlockTime params :
  let T := nPowTargetTimespan params in
  let nElapsed := CBlockIndex.GetBlockTime pindexLast - nFirstBlockTime in
  0 < T -> T * 6 < 2 ^ 32 -> in_int64 nElapsed ->
  LimitAdjustmentStep pindexLast nFirstBlockTime params =
    if nHeight pindexLast >=? nDifficultyChangeActivationHeight params
    then Z.min (Z.max nElapsed (T * 2 / 3)) (T * 6)
    else Z.min (Z.max nElapsed (T / 4)) (T * 4).
Proof.
  intros T nElapsed Hpos Hsmall He. unfold LimitAdjustmentStep. fold T nElapsed.
  assert (H2 : wrap_int64 (T * 2) = T * 2) by (apply wrap_int64_small; unfold in_int64; lia).
  assert (H4 : wrap_int64 (T * 4) = T * 4) by (apply wrap_int64_small; unfold in_int64; lia).
  assert (H6 : wrap_int64 (T * 6) = T * 6) by (apply wrap_int64_small; unfold in_int64; lia).
  rewrite H2, H4, H6, (wrap_int64_small _ He), !Z.quot_div_nonneg by lia.
  destruct (_ >=? _);
    repeat match goal with
           | |- context [?a <? ?b] => destruct (Z.ltb_spec a b)
           | |- context [?a >? ?b] => destruct (Z.gtb_spec a b)
           end; lia.
Qed.

Lemma PerBlockTimespan_clamp pindexLast pindexPrev params :
  let S := nPowTargetSpacing params in
  let nElapsed :=
    CBlockIndex.GetBlockTime pindexLast - CBlockIndex.GetBlockTime pindexPrev in
  0 < S -> S * 12 < 2 ^ 32 -> in_int64 nElapsed ->
  PerBlockTimespan pindexLast pindexPrev params =
    Z.min (Z.max (if nElapsed <? 0 then S else nElapsed) (S * 9 / 10)) (S * 12 / 10).
Proof.
  intros S nElapsed Hpos Hsmall He. unfold PerBlockTimespan. fold S nElapsed.
  assert (H9 : wrap_int64 (S * 9) = S * 9) by (apply wrap_int64_small; unfold in_int64; lia).
  assert (H12 : wrap_int64 (S * 12) = S * 12) by (apply wrap_int64_small; unfold in_int64; lia).
  rewrite H9, H12, (wrap_int64_small _ He), !Z.quot_div_nonneg by lia.
  destruct (nElapsed <? 0);
    repeat match goal with
           | |- context [?a <? ?b] => destruct (Z.ltb_spec a b)
           | |- context [?a >? ?b] => destruct (Z.gtb_spec a b)
           end; lia.
Qed.

Lemma timespan_limits (T : Z) :
  0 < T ->
  0 <= T / 4 <= T /\ 0 <= T * 2 / 3 <= T /\
  0 <= T * 9 / 10 <= T /\ T <= T * 12 / 10 <= T * 2.
Proof. intros H. Z.div_mod_to_equations. lia. Qed.

(** ** Bits that come out of a rescale *)

Lemma LimitAndGetCompact_decodes bnNew params :
  0 <= bnNew < 2 ^ 256 ->
  arith_uint256.SetCompact (LimitAndGetCompact bnNew params)
    = (arith_uint256.decode (LimitAndGetCompact bnNew params), false, false).
Proof.
  intros Hb. unfold LimitAndGetCompact, arith_uint256.decode.
  pose proof (CompactFacts.wrap_range (powLimit params)) as Hl.
  fold (UintToArith256 (powLimit params)) in Hl.
  destruct (_ >? _); now rewrite CompactRoundTrip.SetCompact_GetCompact by lia.
Qed.

Lemma LimitAndGetCompact_monotone bnNew bnNew' params :
  0 <= bnNew -> bnNew <= bnNew' -> bnNew' < 2 ^ 256 ->
  arith_uint256.decode (LimitAndGetCompact bnNew params)
    <= arith_uint256.decode (LimitAndGetCompact bnNew' params).
Proof.
  intros H0 Hle Hlt. unfold LimitAndGetCompact.
  pose proof (CompactFacts.wrap_range (powLimit params)) as Hl.
  fold (UintToArith256 (powLimit params)) in Hl.
  destruct (Z.gtb_spec bnNew (UintToArith256 (powLimit params)));
    destruct (Z.gtb_spec bnNew' (UintToArith256 (powLimit params)));
    apply CompactRoundTrip.decode_GetCompact_monotone; lia.
Qed.

(** X10.  The bits that either rescale returns are a well-formed encoding within
    the limit: the verifier accepts a hash against them exactly when the
    hash is at most their target and that target is not zero. *)
Theorem retargeted_bits_pass_range_check
    (pindexLast pindexPrev : CBlockIndex.t) (nFirstBlockTime hash nBitsNew : Z)
    (params : Params) :
  (fPowNoRetargeting params = false /\
   CalculateNextWorkRequired pindexLast nFirstBlockTime params = Returns nBitsNew)
  \/ PerBlockRetarget pindexLast pindexPrev params = Returns nBitsNew ->
  arith_uint256.SetCompact nBitsNew
    = (arith_uint256.decode nBitsNew, false, false) /\
  (CheckProofOfWork hash nBitsNew params = true <->
   arith_uint256.decode nBitsNew <> 0 /\
   UintToArith256 hash <= arith_uint256.decode nBitsNew).
Proof.
  intros Hfrom.
  assert (Hshape : exists bnNew nT nA,
             Retarget (nBits pindexLast) nA nT params = Returns bnNew /\
             nBitsNew = LimitAndGetCompact bnNew params).
  { destruct Hfrom as [[Hno Hcalc]|Hper].
    - unfold CalculateNextWorkRequired in Hcalc. rewrite Hno in Hcalc.
      destruct (Retarget _ _ _ _) as [bnNew|] eqn:E; cbn [bind] in Hcalc;
        [|discriminate].
      injection Hcalc as <-. eauto.
    - unfold PerBlockRetarget in Hper.
      destruct (Retarget _ _ _ _) as [bnNew|] eqn:E; cbn [bind] in Hper;
        [|discriminate].
      injection Hper as <-. eauto. }
  destruct Hshape as (bnNew & nT & nA & Hret & ->).
  pose proof (Retarget_cases (nBits pindexLast) nA nT params) as Hc.
  rewrite Hret in Hc. destruct Hc as [_ Hrange].
  pose proof (LimitAndGetCompact_decodes bnNew params Hrange) as Hset.
  pose proof (LimitAndGetCompact_le bnNew params ltac:(lia)) as Hle.
  split; [exact Hset|].
  unfold CheckProofOfWork. rewrite Hset. cbn [orb].
  set (t := arith_uint256.decode (LimitAndGetCompact bnNew params)) in *.
  destruct (Z.eqb_spec t 0); cbn [orb]; [intuition (try discriminate; lia)|].
  destruct (Z.gtb_spec t (UintToArith256 (powLimit params))); [lia|].
  destruct (Z.gtb_spec (UintToArith256 hash) t);
    intuition (try discriminate; try lia).
Qed.

Lemma retargeted_bits_pass_range_check_witness :
  CheckProofOfWork (2 ^ 200) 0x1e0e6658 (Examples.main_params false false) = true.
Proof.
  apply (retargeted_bits_pass_range_check
           (Examples.pair 200 120 0x1e0ffff0)
           (CBlockIndex.Build 199 1000 0x1e0ffff0 None)
           0 (2 ^ 200) 0x1e0e6658 (Examples.main_params false false)).
  - right. vm_compute. reflexivity.
  - vm_compute. split; [discriminate|discriminate].
Defined.

(** ** Blocks on schedule, slower blocks, and timestamps beyond the limits *)

(** A rescale by the target timespan itself leaves the target as it is, but
    for the bit lost to the halving. *)
Lemma Retarget_by_target_timespan nBits nTargetTimespan params :
  let bnOld := arith_uint256.decode nBits in
  1 < nTargetTimespan < 2 ^ 32 ->
  (if fShift bnOld params then bnOld / 2 else bnOld) * nTargetTimespan < 2 ^ 256 ->
  fShift bnOld params = false \/ bnOld mod 2 = 0 ->
  Retarget nBits nTargetTimespan nTargetTimespan params = Returns bnOld.
Proof.
  intros bnOld HT Hno Heven.
  assert (2 ^ 32 < 2 ^ 64) by reflexivity.
  rewrite Retarget_no_overflow by (fold bnOld; lia). fold bnOld.
  f_equal. destruct (fShift bnOld params).
  - destruct Heven as [|Heven]; [discriminate|].
    rewrite Z.div_mul by lia.
    pose proof (Z.div_mod bnOld 2 ltac:(lia)). lia.
  - now rewrite Z.div_mul by lia.
Qed.

(** X11.  When the last block comes exactly one spacing after its predecessor, or
    is stamped before it, the per-block calculator returns bits of the
    target the last block had: a negative gap counts as on schedule, not as
    a fast block. *)
Theorem per_block_on_schedule_keeps_target
    (pindexLast pindexPrev : CBlockIndex.t) (pblock : CBlockHeader.t)
    (params : Params) :
  let bnOld := arith_uint256.decode (nBits pindexLast) in
  let S := nPowTargetSpacing params in
  let nElapsed :=
    CBlockIndex.GetBlockTime pindexLast - CBlockIndex.GetBlockTime pindexPrev in
  pprev pindexLast = Some pindexPrev ->
  wrap_int (nHeight pindexLast + 1) <> nPerBlockDifficultyActivationHeight params ->
  fPowAllowMinDifficultyBlocks params
    && MinDifficultyAllowed pindexLast pblock params = false ->
  1 < S -> S * 12 < 2 ^ 32 ->
  in_int64 nElapsed -> nElapsed < 0 \/ nElapsed = S ->
  bnOld <= UintToArith256 (powLimit params) ->
  (if fShift bnOld params then bnOld / 2 else bnOld) * S < 2 ^ 256 ->
  fShift bnOld params = false \/ bnOld mod 2 = 0 ->
  exists nBitsNew,
    GetNextWorkRequiredPerBlock (Some pindexLast) pblock params = Returns nBitsNew /\
    arith_uint256.decode nBitsNew = bnOld.
Proof.
  intros bnOld S nElapsed Hprev Hact Hmin HS Hsmall He Hgap Hlim Hno Heven.
  pose proof (timespan_limits S ltac:(lia)) as HL.
  assert (Hts : PerBlockTimespan pindexLast pindexPrev params = S).
  { rewrite PerBlockTimespan_clamp by (fold S; fold nElapsed; lia || assumption).
    fold S nElapsed.
    destruct (Z.ltb_spec nElapsed 0); lia. }
  unfold GetNextWorkRequiredPerBlock. rewrite Hprev.
  destruct (Z.eqb_spec (wrap_int (nHeight pindexLast + 1))
              (nPerBlockDifficultyActivationHeight params)); [contradiction|].
  rewrite Hmin. unfold PerBlockRetarget. rewrite Hts. fold S.
  rewrite Retarget_by_target_timespan by (fold bnOld; lia || assumption).
  cbn [bind]. eexists; split; [reflexivity|].
  unfold LimitAndGetCompact. fold bnOld.
  destruct (Z.gtb_spec bnOld (UintToArith256 (powLimit params))); [lia|].
  apply CompactRoundTrip.decode_GetCompact_decode.
Qed.

Lemma per_block_on_schedule_keeps_target_witness :
  (exists nBitsNew,
     GetNextWorkRequiredPerBlock (Some (Examples.pair 200 150 0x1e0ffff0))
       (Examples.candidate 1300) (Examples.main_params false false)
       = Returns nBitsNew /\
     arith_uint256.decode nBitsNew = arith_uint256.decode 0x1e0ffff0) /\
  (exists nBitsNew,
     GetNextWorkRequiredPerBlock (Some (Examples.pair 200 (-7) 0x1d00ffff))
       (Examples.candidate 1300) (Examples.main_params false false)
       = Returns nBitsNew /\
     arith_uint256.decode nBitsNew = arith_uint256.decode 0x1d00ffff).
Proof.
  split.
  - apply (per_block_on_schedule_keeps_target
             (Examples.pair 200 150 0x1e0ffff0)
             (CBlockIndex.Build 199 1000 0x1e0ffff0 None)
             (Examples.candidate 1300) (Examples.main_params false false));
      try reflexivity;
      try (vm_compute; (discriminate || reflexivity
                        || (split; (discriminate || reflexivity)))).
    + right; reflexivity.
    + right; reflexivity.
  - apply (per_block_on_schedule_keeps_target
             (Examples.pair 200 (-7) 0x1d00ffff)
             (CBlockIndex.Build 199 1000 0x1d00ffff None)
             (Examples.candidate 1300) (Examples.main_params false false));
      try reflexivity;
      try (vm_compute; (discriminate || reflexivity
                        || (split; (discriminate || reflexivity)))).
    + left; reflexivity.
    + left; reflexivity.
Defined.

(** X12.  When the retarget period took exactly the target timespan, the shared
    routine returns bits of the target the last block had. *)
Theorem legacy_on_schedule_keeps_target
    (pindexLast : CBlockIndex.t) (nFirstBlockTime : Z) (params : Params) :
  let bnOld := arith_uint256.decode (nBits pindexLast) in
  let T := nPowTargetTimespan params in
  fPowNoRetargeting params = false ->
  1 < T -> T * 6 < 2 ^ 32 ->
  CBlockIndex.GetBlockTime pindexLast - nFirstBlockTime = T ->
  bnOld <= UintToArith256 (powLimit params) ->
  (if fShift bnOld params then bnOld / 2 else bnOld) * T < 2 ^ 256 ->
  fShift bnOld params = false \/ bnOld mod 2 = 0 ->
  exists nBitsNew,
    CalculateNextWorkRequired pindexLast nFirstBlockTime params = Returns nBitsNew /\
    arith_uint256.decode nBitsNew = bnOld.
Proof.
  intros bnOld T Hno HT Hsmall He Hlim Hfit Heven.
  pose proof (timespan_limits T ltac:(lia)) as HL.
  assert (Hts : LimitAdjustmentStep pindexLast nFirstBlockTime params = T).
  { rewrite LimitAdjustmentStep_clamp
      by (fold T; rewrite ?He; unfold in_int64; lia).
    fold T. rewrite He. destruct (_ >=? _); lia. }
  unfold CalculateNextWorkRequired. rewrite Hno, Hts. fold T.
  rewrite Retarget_by_target_timespan by (fold bnOld; lia || assumption).
  cbn [bind]. eexists; split; [reflexivity|].
  unfold LimitAndGetCompact. fold bnOld.
  destruct (Z.gtb_spec bnOld (UintToArith256 (powLimit params))); [lia|].
  apply CompactRoundTrip.decode_GetCompact_decode.
Qed.

Lemma legacy_on_schedule_keeps_target_witness :
  exists nBitsNew,
    CalculateNextWorkRequired (Examples.chain 7 0x1e0ffff0) 450
      (Examples.short_params false) = Returns nBitsNew /\
    arith_uint256.decode nBitsNew = arith_uint256.decode 0x1e0ffff0.
Proof.
  apply (legacy_on_schedule_keeps_target
           (Examples.chain 7 0x1e0ffff0) 450 (Examples.short_params false));
    try reflexivity.
  - vm_compute; discriminate.
  - right; reflexivity.
Defined.

Lemma Retarget_monotone nBits nActualTimespan nActualTimespan' nTargetTimespan params :
  let bnOld := arith_uint256.decode nBits in
  1 < nTargetTimespan < 2 ^ 64 ->
  0 <= nActualTimespan <= nActualTimespan' ->
  nActualTimespan' < 2 ^ 32 ->
  (if fShift bnOld params then bnOld / 2 else bnOld) * nActualTimespan' < 2 ^ 256 ->
  exists bnNew bnNew',
    Retarget nBits nActualTimespan nTargetTimespan params = Returns bnNew /\
    Retarget nBits nActualTimespan' nTargetTimespan params = Returns bnNew' /\
    0 <= bnNew <= bnNew' /\ bnNew' < 2 ^ 256.
Proof.
  intros bnOld HT Hts Hsmall Hno.
  pose proof (decode_range nBits) as Hold. fold bnOld in Hold.
  assert (Hhalf : 0 <= bnOld / 2) by (apply Z.div_pos; lia).
  assert (Hno' : (if fShift bnOld params then bnOld / 2 else bnOld)
                 * nActualTimespan < 2 ^ 256).
  { destruct (fShift bnOld params); nia. }
  pose proof (Retarget_cases nBits nActualTimespan' nTargetTimespan params) as Hc.
  rewrite !Retarget_no_overflow in * by (fold bnOld; lia). fold bnOld in Hc |- *.
  do 2 eexists. split; [reflexivity|]. split; [reflexivity|].
  destruct Hc as [_ Hrange]. split; [|lia].
  destruct (fShift bnOld params).
  - assert (0 <= bnOld / 2 * nActualTimespan / nTargetTimespan)
      by (apply Z.div_pos; nia).
    assert (bnOld / 2 * nActualTimespan / nTargetTimespan
            <= bnOld / 2 * nActualTimespan' / nTargetTimespan)
      by (apply Z.div_le_mono; nia).
    lia.
  - split; [apply Z.div_pos; nia|]. apply Z.div_le_mono; nia.
Qed.

(** X13.  A longer retarget period never makes the next target harder: with the
    same last block, an earlier first block gives bits whose target is at
    least as large. *)
Theorem legacy_slower_period_never_harder
    (pindexLast : CBlockIndex.t) (nFirstBlockTime nFirstBlockTime' : Z)
    (params : Params) :
  let bnOld := arith_uint256.decode (nBits pindexLast) in
  let T := nPowTargetTimespan params in
  fPowNoRetargeting params = false ->
  1 < T -> T * 6 < 2 ^ 32 ->
  in_int64 (CBlockIndex.GetBlockTime pindexLast - nFirstBlockTime) ->
  in_int64 (CBlockIndex.GetBlockTime pindexLast - nFirstBlockTime') ->
  nFirstBlockTime' <= nFirstBlockTime ->
  (if fShift bnOld params then bnOld / 2 else bnOld)
    * (if nHeight pindexLast >=? nDifficultyChangeActivationHeight params
       then T * 6 else T * 4) < 2 ^ 256 ->
  exists nBitsNew nBitsNew',
    CalculateNextWorkRequired pindexLast nFirstBlockTime params = Returns nBitsNew /\
    CalculateNextWorkRequired pindexLast nFirstBlockTime' params = Returns nBitsNew' /\
    arith_uint256.decode nBitsNew <= arith_uint256.decode nBitsNew'.
Proof.
  intros bnOld T Hno HT Hsmall He He' Hfirst Hfit.
  pose proof (timespan_limits T ltac:(lia)) as HL.
  pose proof (decode_range (nBits pindexLast)) as Hold. fold bnOld in Hold.
  assert (Hhalf : 0 <= bnOld / 2) by (apply Z.div_pos; lia).
  assert (2 ^ 32 < 2 ^ 64) by reflexivity.
  pose proof (LimitAdjustmentStep_clamp pindexLast nFirstBlockTime params
                ltac:(fold T; lia) Hsmall He) as Hc.
  pose proof (LimitAdjustmentStep_clamp pindexLast nFirstBlockTime' params
                ltac:(fold T; lia) Hsmall He') as Hc'.
  fold T in Hc, Hc'.
  destruct (Retarget_monotone (nBits pindexLast)
              (LimitAdjustmentStep pindexLast nFirstBlockTime params)
              (LimitAdjustmentStep pindexLast nFirstBlockTime' params)
              T params)
    as (bnNew & bnNew' & Hr & Hr' & Hle & Hlt).
  - lia.
  - rewrite Hc, Hc'. destruct (_ >=? _); lia.
  - rewrite Hc'. destruct (_ >=? _); lia.
  - fold bnOld. rewrite Hc'.
    destruct (nHeight pindexLast >=? nDifficultyChangeActivationHeight params);
      destruct (fShift bnOld params); nia.
  - unfold CalculateNextWorkRequired. rewrite Hno. fold T. rewrite Hr, Hr'.
    cbn [bind]. do 2 eexists. split; [reflexivity|]. split; [reflexivity|].
    apply LimitAndGetCompact_monotone; lia.
Qed.

Lemma legacy_slower_period_never_harder_witness :
  exists nBitsNew nBitsNew',
    CalculateNextWorkRequired (Examples.chain 7 0x1d00ffff) 600
      (Examples.short_params false) = Returns nBitsNew /\
    CalculateNextWorkRequired (Examples.chain 7 0x1d00ffff) 300
      (Examples.short_params false) = Returns nBitsNew' /\
    arith_uint256.decode nBitsNew <= arith_uint256.decode nBitsNew'.
Proof.
  apply (legacy_slower_period_never_harder
           (Examples.chain 7 0x1d00ffff) 600 300 (Examples.short_params false));
    try reflexivity;
    vm_compute; (discriminate || (split; (discriminate || reflexivity))).
Defined.

(** X14.  The same for the per-block calculator, for a last block not stamped
    before its predecessor: the longer the last block took, the larger the
    target of the bits returned. *)
Theorem per_block_slower_block_never_harder
    (h t b : Z) (pindexPrev pindexPrev' : CBlockIndex.t)
    (pblock : CBlockHeader.t) (params : Params) :
  let pindexLast := CBlockIndex.Build h t b (Some pindexPrev) in
  let pindexLast' := CBlockIndex.Build h t b (Some pindexPrev') in
  let bnOld := arith_uint256.decode b in
  let S := nPowTargetSpacing params in
  wrap_int (h + 1) <> nPerBlockDifficultyActivationHeight params ->
  fPowAllowMinDifficultyBlocks params
    && MinDifficultyAllowed pindexLast pblock params = false ->
  1 < S -> S * 12 < 2 ^ 32 ->
  CBlockIndex.GetBlockTime pindexPrev' <= CBlockIndex.GetBlockTime pindexPrev ->
  CBlockIndex.GetBlockTime pindexPrev <= t ->
  in_int64 (t - CBlockIndex.GetBlockTime pindexPrev') ->
  (if fShift bnOld params then bnOld / 2 else bnOld) * (S * 12 / 10) < 2 ^ 256 ->
  exists nBitsNew nBitsNew',
    GetNextWorkRequiredPerBlock (Some pindexLast) pblock params = Returns nBitsNew /\
    GetNextWorkRequiredPerBlock (Some pindexLast') pblock params = Returns nBitsNew' /\
    arith_uint256.decode nBitsNew <= arith_uint256.decode nBitsNew'.
Proof.
  intros pindexLast pindexLast' bnOld S Hact Hmin HS Hsmall Hprev Hpos He' Hfit.
  pose proof (timespan_limits S ltac:(lia)) as HL.
  pose proof (decode_range b) as Hold. fold bnOld in Hold.
  assert (Hhalf : 0 <= bnOld / 2) by (apply Z.div_pos; lia).
  assert (2 ^ 32 < 2 ^ 64) by reflexivity.
  assert (He : in_int64 (t - CBlockIndex.GetBlockTime pindexPrev))
    by (unfold in_int64 in *; lia).
  pose proof (PerBlockTimespan_clamp pindexLast pindexPrev params
                ltac:(fold S; lia) Hsmall He) as Hc.
  pose proof (PerBlockTimespan_clamp pindexLast' pindexPrev' params
                ltac:(fold S; lia) Hsmall He') as Hc'.
  fold S in Hc, Hc'.
  change (CBlockIndex.GetBlockTime pindexLast) with t in Hc.
  change (CBlockIndex.GetBlockTime pindexLast') with t in Hc'.
  destruct (Z.ltb_spec (t - CBlockIndex.GetBlockTime pindexPrev) 0); [lia|].
  destruct (Z.ltb_spec (t - CBlockIndex.GetBlockTime pindexPrev') 0); [lia|].
  destruct (Retarget_monotone b
              (PerBlockTimespan pindexLast pindexPrev params)
              (PerBlockTimespan pindexLast' pindexPrev' params)
              S params)
    as (bnNew & bnNew' & Hr & Hr' & Hle & Hlt).
  - lia.
  - rewrite Hc, Hc'. lia.
  - rewrite Hc'. lia.
  - fold bnOld. rewrite Hc'. destruct (fShift bnOld params); nia.
  - assert (Hmin' : fPowAllowMinDifficultyBlocks params
                    && MinDifficultyAllowed pindexLast' pblock params = false)
      by exact Hmin.
    unfold GetNextWorkRequiredPerBlock.
    cbn [pprev pindexLast pindexLast'].
    change (nHeight pindexLast) with h. change (nHeight pindexLast') with h.
    destruct (Z.eqb_spec (wrap_int (h + 1))
                (nPerBlockDifficultyActivationHeight params)); [contradiction|].
    rewrite Hmin, Hmin'. unfold PerBlockRetarget. fold S.
    change (nBits pindexLast) with b. change (nBits pindexLast') with b.
    rewrite Hr, Hr'. cbn [bind].
    do 2 eexists. split; [reflexivity|]. split; [reflexivity|].
    apply LimitAndGetCompact_monotone; lia.
Qed.

Lemma per_block_slower_block_never_harder_witness :
  exists nBitsNew nBitsNew',
    GetNextWorkRequiredPerBlock
      (Some (CBlockIndex.Build 200 1140 0x1d00ffff
               (Some (CBlockIndex.Build 199 1000 0x1d00ffff None))))
      (Examples.candidate 1300) (Examples.main_params false false)
      = Returns nBitsNew /\
    GetNextWorkRequiredPerBlock
      (Some (CBlockIndex.Build 200 1140 0x1d00ffff
               (Some (CBlockIndex.Build 199 980 0x1d00ffff None))))
      (Examples.candidate 1300) (Examples.main_params false false)
      = Returns nBitsNew' /\
    arith_uint256.decode nBitsNew <= arith_uint256.decode nBitsNew'.
Proof.
  apply (per_block_slower_block_never_harder
           200 1140 0x1d00ffff
           (CBlockIndex.Build 199 1000 0x1d00ffff None)
           (CBlockIndex.Build 199 980 0x1d00ffff None)
           (Examples.candidate 1300) (Examples.main_params false false));
    try reflexivity;
    vm_compute; (discriminate || (split; (discriminate || reflexivity))).
Defined.

(** X15.  Timestamps beyond the limits change nothing: two retarget periods that
    are both at most the floor of the adjustment step, or both at least its
    ceiling, give the same result. *)
Theorem legacy_timespan_saturates
    (pindexLast : CBlockIndex.t) (nFirstBlockTime nFirstBlockTime' : Z)
    (params : Params) :
  let T := nPowTargetTimespan params in
  let nElapsed := CBlockIndex.GetBlockTime pindexLast - nFirstBlockTime in
  let nElapsed' := CBlockIndex.GetBlockTime pindexLast - nFirstBlockTime' in
  let fNewRules := nHeight pindexLast >=? nDifficultyChangeActivationHeight params in
  0 < T -> T * 6 < 2 ^ 32 ->
  in_int64 nElapsed -> in_int64 nElapsed' ->
  (nElapsed <= (if fNewRules then T * 2 / 3 else T / 4) /\
   nElapsed' <= (if fNewRules then T * 2 / 3 else T / 4))
  \/ ((if fNewRules then T * 6 else T * 4) <= nElapsed /\
      (if fNewRules then T * 6 else T * 4) <= nElapsed') ->
  CalculateNextWorkRequired pindexLast nFirstBlockTime params
    = CalculateNextWorkRequired pindexLast nFirstBlockTime' params.
Proof.
  intros T nElapsed nElapsed' fNewRules HT Hsmall He He' Hsat.
  pose proof (timespan_limits T HT) as HL.
  assert (Hts : LimitAdjustmentStep pindexLast nFirstBlockTime params
                = LimitAdjustmentStep pindexLast nFirstBlockTime' params).
  { rewrite !LimitAdjustmentStep_clamp by assumption.
    fold T nElapsed nElapsed' fNewRules. destruct fNewRules; lia. }
  unfold CalculateNextWorkRequired. now rewrite Hts.
Qed.

Lemma legacy_timespan_saturates_witness :
  CalculateNextWorkRequired (Examples.chain 7 0x1d00ffff) 1000
    (Examples.short_params false)
  = CalculateNextWorkRequired (Examples.chain 7 0x1d00ffff) 2000
      (Examples.short_params false).
Proof.
  apply (legacy_timespan_saturates
           (Examples.chain 7 0x1d00ffff) 1000 2000 (Examples.short_params false));
    try reflexivity;
    try (vm_compute; split; (discriminate || reflexivity)).
  left. vm_compute. split; discriminate.
Defined.

(** ** The activation boundary of the per-block calculator *)

(** C5.  The per-block calculator returns the bits of the last block
    unchanged when that block has no predecessor or when the next height is
    the activation height.  One block later (the last block at the
    activation height, with a predecessor) it returns the encoding of the
    limit when the minimum-difficulty rule is on and the candidate is more
    than two spacings late; otherwise it returns the rescale of the last
    block's target by the time between the last block and its predecessor:
    that time, with a negative value replaced by the spacing, limited to
    [9/10, 12/10] of the spacing, times the old target over the spacing,
    capped at the limit and encoded, the value being explicit whenever the
    product fits 256 bits. *)
Theorem per_block_activation_boundary
    (pindexLast : CBlockIndex.t) (pblock : CBlockHeader.t) (params : Params) :
  let S := nPowTargetSpacing params in
  let bnPowLimit := UintToArith256 (powLimit params) in
  let bnOld := arith_uint256.decode (nBits pindexLast) in
  in_int (nPerBlockDifficultyActivationHeight params) ->
  ((pprev pindexLast = None \/
    nHeight pindexLast + 1 = nPerBlockDifficultyActivationHeight params) ->
   GetNextWorkRequiredPerBlock (Some pindexLast) pblock params
     = Returns (nBits pindexLast)) /\
  (forall pindexPrev,
     nHeight pindexLast = nPerBlockDifficultyActivationHeight params ->
     pprev pindexLast = Some pindexPrev ->
     let nElapsed :=
       CBlockIndex.GetBlockTime pindexLast - CBlockIndex.GetBlockTime pindexPrev in
     let nActualTimespan :=
       Z.min (Z.max (if nElapsed <? 0 then S else nElapsed) (S * 9 / 10))
             (S * 12 / 10) in
     let bnNew :=
       if fShift bnOld params then 2 * (bnOld / 2 * nActualTimespan / S)
       else bnOld * nActualTimespan / S in
     (fPowAllowMinDifficultyBlocks params = true ->
      in_int64 (S * 2) ->
      in_int64 (CBlockIndex.GetBlockTime pindexLast + S * 2) ->
      CBlockHeader.GetBlockTime pblock
        > CBlockIndex.GetBlockTime pindexLast + 2 * S ->
      GetNextWorkRequiredPerBlock (Some pindexLast) pblock params
        = Returns (arith_uint256.GetCompact bnPowLimit)) /\
     (fPowAllowMinDifficultyBlocks params = false \/
      (in_int64 (S * 2) /\
       in_int64 (CBlockIndex.GetBlockTime pindexLast + S * 2) /\
       CBlockHeader.GetBlockTime pblock
         <= CBlockIndex.GetBlockTime pindexLast + 2 * S) ->
      GetNextWorkRequiredPerBlock (Some pindexLast) pblock params
        = (bnNew <- Retarget (nBits pindexLast)
                      (PerBlockTimespan pindexLast pindexPrev params) S params ;;
           Returns (LimitAndGetCompact bnNew params)) /\
      (1 < S -> S * 12 < 2 ^ 32 -> in_int64 nElapsed ->
       (if fShift bnOld params then bnOld / 2 else bnOld) * (S * 12 / 10)
         < 2 ^ 256 ->
       GetNextWorkRequiredPerBlock (Some pindexLast) pblock params
         = Returns (arith_uint256.GetCompact (Z.min bnNew bnPowLimit))))).
Proof.
  intros S bnPowLimit bnOld Hact. split.
  - intros [Hgen|Hfirst]; unfold GetNextWorkRequiredPerBlock.
    + now rewrite Hgen.
    + destruct (pprev pindexLast); [|reflexivity].
      rewrite Hfirst, (wrap_int_small _ Hact), Z.eqb_refl. reflexivity.
  - intros pindexPrev Hh Hprev nElapsed nActualTimespan bnNew.
    assert (Hpast : forall r,
               (if fPowAllowMinDifficultyBlocks params
                   && MinDifficultyAllowed pindexLast pblock params
                then Returns (nProofOfWorkLimit params)
                else PerBlockRetarget pindexLast pindexPrev params) = r ->
               GetNextWorkRequiredPerBlock (Some pindexLast) pblock params = r).
    { intros r Hr. unfold GetNextWorkRequiredPerBlock. rewrite Hprev, Hh.
      destruct (Z.eqb_spec
                  (wrap_int (nPerBlockDifficultyActivationHeight params + 1))
                  (nPerBlockDifficultyActivationHeight params)) as [E|_];
        [exfalso; exact (wrap_int_succ_neq _ Hact E)|exact Hr]. }
    split.
    + intros Hallow Hr1 Hr2 Hlate. apply Hpast.
      rewrite Hallow, MinDifficultyAllowed_spec by assumption. fold S.
      destruct (Z.gtb_spec (CBlockHeader.GetBlockTime pblock)
                  (CBlockIndex.GetBlockTime pindexLast + 2 * S)); [|lia].
      reflexivity.
    + intros Hno.
      assert (Hmin : fPowAllowMinDifficultyBlocks params
                     && MinDifficultyAllowed pindexLast pblock params = false).
      { destruct Hno as [Hallow|(Hr1 & Hr2 & Htimely)]; [now rewrite Hallow|].
        rewrite MinDifficultyAllowed_spec by assumption. fold S.
        destruct (Z.gtb_spec (CBlockHeader.GetBlockTime pblock)
                    (CBlockIndex.GetBlockTime pindexLast + 2 * S)); [lia|].
        apply andb_false_r. }
      assert (Hres : GetNextWorkRequiredPerBlock (Some pindexLast) pblock params
                     = (bn <- Retarget (nBits pindexLast)
                                (PerBlockTimespan pindexLast pindexPrev params)
                                S params ;;
                        Returns (LimitAndGetCompact bn params))).
      { apply Hpast. rewrite Hmin. reflexivity. }
      split; [exact Hres|].
      intros HS Hsmall He Hfit. rewrite Hres.
      pose proof (timespan_limits S ltac:(lia)) as HL.
      pose proof (decode_range (nBits pindexLast)) as Hold. fold bnOld in Hold.
      assert (Hhalf : 0 <= bnOld / 2) by (apply Z.div_pos; lia).
      assert (2 ^ 32 < 2 ^ 64) by reflexivity.
      rewrite PerBlockTimespan_clamp by (fold S; lia || assumption).
      fold S nElapsed nActualTimespan.
      assert (Hts : S * 9 / 10 <= nActualTimespan <= S * 12 / 10)
        by (subst nActualTimespan; lia).
      rewrite Retarget_no_overflow
        by (fold bnOld; try lia; destruct (fShift bnOld params); nia).
      fold bnOld. cbn [bind]. fold bnNew.
      unfold LimitAndGetCompact. fold bnPowLimit.
      destruct (Z.gtb_spec bnNew bnPowLimit);
        [rewrite Z.min_r by lia|rewrite Z.min_l by lia]; reflexivity.
Qed.

Lemma per_block_activation_boundary_witness :
  GetNextWorkRequiredPerBlock (Some (Examples.pair 99 120 0x1e0ffff0))
    (Examples.candidate 1270) (Examples.main_params true false)
    = Returns 0x1e0ffff0 /\
  GetNextWorkRequiredPerBlock (Some (Examples.pair 100 120 0x1e0ffff0))
    (Examples.candidate 5000) (Examples.main_params true false)
    = Returns 0x1e0fffff /\
  GetNextWorkRequiredPerBlock (Some (Examples.pair 100 120 0x1e0ffff0))
    (Examples.candidate 1270) (Examples.main_params true false)
    = Returns 0x1e0e6658.
Proof.
  assert (Hact : in_int (nPerBlockDifficultyActivationHeight
                           (Examples.main_params true false)))
    by (vm_compute; split; [discriminate|reflexivity]).
  split; [|split].
  - apply (per_block_activation_boundary
             (Examples.pair 99 120 0x1e0ffff0) (Examples.candidate 1270)
             (Examples.main_params true false) Hact).
    right; reflexivity.
  - pose proof (proj2 (per_block_activation_boundary
                         (Examples.pair 100 120 0x1e0ffff0)
                         (Examples.candidate 5000)
                         (Examples.main_params true false) Hact)
                      (CBlockIndex.Build 99 1000 0x1e0ffff0 None)
                      eq_refl eq_refl) as [Hlate _].
    exact (Hlate eq_refl
             ltac:(vm_compute; split; [discriminate|reflexivity])
             ltac:(vm_compute; split; [discriminate|reflexivity])
             ltac:(vm_compute; reflexivity)).
  - pose proof (proj2 (per_block_activation_boundary
                         (Examples.pair 100 120 0x1e0ffff0)
                         (Examples.candidate 1270)
                         (Examples.main_params true false) Hact)
                      (CBlockIndex.Build 99 1000 0x1e0ffff0 None)
                      eq_refl eq_refl) as [_ Htimely].
    assert (Hcond : fPowAllowMinDifficultyBlocks (Examples.main_params true false)
                    = false \/
                    (in_int64 (nPowTargetSpacing (Examples.main_params true false) * 2) /\
                     in_int64 (CBlockIndex.GetBlockTime (Examples.pair 100 120 0x1e0ffff0)
                               + nPowTargetSpacing (Examples.main_params true false) * 2) /\
                     CBlockHeader.GetBlockTime (Examples.candidate 1270)
                       <= CBlockIndex.GetBlockTime (Examples.pair 100 120 0x1e0ffff0)
                          + 2 * nPowTargetSpacing (Examples.main_params true false))).
    { right. vm_compute. repeat split; discriminate || reflexivity. }
    destruct (Htimely Hcond) as [_ Hval].
    exact (Hval ltac:(vm_compute; reflexivity) ltac:(vm_compute; reflexivity)
             ltac:(vm_compute; split; [discriminate|reflexivity])
             ltac:(vm_compute; reflexivity)).
Defined.

(** At the activation height, with the exception allowed and a late
    candidate, the per-block calculator returns the encoding of the limit,
    not the adjustment measured from the two times. *)
Lemma per_block_activation_boundary_counterexample :
  let params := Examples.main_params true false in
  let pindexLast := Examples.pair 100 120 0x1d00ffff in
  let pindexPrev := CBlockIndex.Build 99 1000 0x1d00ffff None in
  nHeight pindexLast = nPerBlockDifficultyActivationHeight params /\
  pprev pindexLast = Some pindexPrev /\
  PerBlockRetarget pindexLast pindexPrev params = Returns 0x1d00e665 /\
  GetNextWorkRequiredPerBlock (Some pindexLast) (Examples.candidate 5000) params
    = Returns 0x1e0fffff /\
  GetNextWorkRequiredPerBlock (Some pindexLast) (Examples.candidate 5000) params
    <> PerBlockRetarget pindexLast pindexPrev params.
Proof.
  vm_compute. repeat split; try reflexivity; discriminate.
Qed.
